(** * Execution Management Core of NexusTrader: order cache, precision
    engine, TWAP slicing and the order workers.

    The development embeds [tradebot/core/cache.py], [tradebot/base/ems.py]
    and the venue files [nexustrader/exchange/{bybit,okx}/ems.py] as Rocq
    functions and proves properties of them. *)

From Stdlib Require Import ZArith QArith Qround Qpower Lia Lqa List String.
From stdpp Require Import gmap strings list fin_maps.
Import ListNotations.

Local Open Scope Z_scope.
#[local] Set Warnings "-clear-no-such-hyp".

(** ** Python results

    A Python call either returns a value or raises.  Only the exceptions
    that the embedded code can raise are listed. *)

Inductive PyExn :=
  | ZeroDivisionError      (* float division or floor division by zero *)
  | DecimalDivisionByZero  (* decimal.DivisionByZero, from [Decimal // 0] *)
  | InvalidOperation       (* decimal.InvalidOperation, from [0 // 0] *)
  | KeyError
  | IndexError
  | AttributeError.

Inductive py (A : Type) :=
  | Ok (a : A)
  | Raise (e : PyExn).

Arguments Ok {A} a.
Arguments Raise {A} e.

Definition py_bind {A B} (m : py A) (k : A -> py B) : py B :=
  match m with
  | Ok a => k a
  | Raise e => Raise e
  end.

Notation "'let!' x ':=' m 'in' k" := (py_bind m (fun x => k))
  (at level 10, x pattern, m at level 100, k at level 200).

(** ** Decimal numbers

    A [decimal.Decimal] is a signed coefficient and an exponent; its value
    is [coefficient * 10^exponent].  Addition, subtraction and
    multiplication are exact, as they are in Python while the result has at
    most 28 significant digits (the default context).  Python floats are
    represented by the rational they denote, and a quotient of Decimals by
    the exact rational; [Decimal(str(x))] of a float [x] is the rational of
    its shortest decimal literal. *)

Record Decimal := mkDecimal { coefficient : Z; exponent : Z }.

Definition Dval (d : Decimal) : Q :=
  (inject_Z (coefficient d) * (10 # 1) ^ (exponent d))%Q.

(** Coefficients of two Decimals brought to their smaller exponent. *)
Definition Dalign (a b : Decimal) : Z * Z * Z :=
  let e := Z.min (exponent a) (exponent b) in
  (coefficient a * 10 ^ (exponent a - e),
   coefficient b * 10 ^ (exponent b - e), e).

Definition Dadd (a b : Decimal) : Decimal :=
  let '(ca, cb, e) := Dalign a b in mkDecimal (ca + cb) e.

Definition Dsub (a b : Decimal) : Decimal :=
  let '(ca, cb, e) := Dalign a b in mkDecimal (ca - cb) e.

(** [n * d] for a Python int [n]. *)
Definition Dmul_int (n : Z) (d : Decimal) : Decimal :=
  mkDecimal (n * coefficient d) (exponent d).

Definition Dmul (a b : Decimal) : Decimal :=
  mkDecimal (coefficient a * coefficient b) (exponent a + exponent b).

Definition Dcompare (a b : Decimal) : comparison :=
  let '(ca, cb, _) := Dalign a b in ca ?= cb.

Definition Dltb (a b : Decimal) : bool :=
  match Dcompare a b with Lt => true | _ => false end.

Definition Deqb (a b : Decimal) : bool :=
  match Dcompare a b with Eq => true | _ => false end.

Definition Dleb (a b : Decimal) : bool := negb (Dltb b a).

Definition Dzero : Decimal := mkDecimal 0 0.
Definition Dis_zero (a : Decimal) : bool := coefficient a =? 0.

(** Python's [max(a, b)]: the first argument unless the second is larger. *)
Definition Dmax (a b : Decimal) : Decimal := if Dltb a b then b else a.

(** [int(a // b)]: the quotient truncated towards zero, as
    [Decimal.__floordiv__] does; the caller checks [b] for zero. *)
Definition Dfloordiv (a b : Decimal) : Z :=
  let '(ca, cb, _) := Dalign a b in Z.quot ca cb.

(** [int(d)] truncates towards zero. *)
Definition Dto_int (d : Decimal) : Z :=
  if 0 <=? exponent d then coefficient d * 10 ^ exponent d
  else Z.quot (coefficient d) (10 ^ (- exponent d)).

Inductive Rounding := ROUND_HALF_UP | ROUND_CEILING | ROUND_FLOOR.

Definition round_to_integral (r : Rounding) (x : Q) : Z :=
  match r with
  | ROUND_FLOOR => Qfloor x
  | ROUND_CEILING => Qceiling x
  | ROUND_HALF_UP =>
      if Qle_bool 0 x then Qfloor (x + (1 # 2)) else Qceiling (x - (1 # 2))
  end.

(** [x.quantize(p, rounding=r)]: [x] rounded to the exponent of [p]. *)
Definition quantize (x : Q) (p : Decimal) (r : Rounding) : Decimal :=
  mkDecimal (round_to_integral r (x / (10 # 1) ^ (exponent p))%Q) (exponent p).

(** ** Market descriptors (read-only) *)

Record Precision := mkPrecision { precision_amount : Decimal; precision_price : Decimal }.
Record Limits := mkLimits { limits_amount_min : Q }.
Record BaseMarket := mkMarket { precision : Precision; limits : Limits }.

Inductive Mode := round | ceil | floor.

(** ** ems.py: [_amount_to_precision]

    [amount] is the float argument, given by the rational of [str(amount)];
    [precision] is [Decimal(str(market.precision.amount))]. *)
Definition to_precision (precision : Decimal) (amount : Q) (mode : Mode) : Decimal :=
  let '(exp, precision_decimal) :=
    if Dleb (mkDecimal 1 0) precision
    then (mkDecimal (Dto_int precision) 0, mkDecimal 1 0)
    else (mkDecimal 1 0, precision) in
  match mode with
  | round => Dmul (quantize (amount / Dval exp) precision_decimal ROUND_HALF_UP) exp
  | ceil => Dmul (quantize (amount / Dval exp) precision_decimal ROUND_CEILING) exp
  | floor => Dmul (quantize (amount / Dval exp) precision_decimal ROUND_FLOOR) exp
  end.

Definition _amount_to_precision (_market : gmap string BaseMarket)
    (symbol : string) (amount : Q) (mode : Mode) : py Decimal :=
  match _market !! symbol with
  | None => Raise KeyError
  | Some market => Ok (to_precision (precision_amount (precision market)) amount mode)
  end.

Definition _price_to_precision (_market : gmap string BaseMarket)
    (symbol : string) (price : Q) (mode : Mode) : py Decimal :=
  match _market !! symbol with
  | None => Raise KeyError
  | Some market => Ok (to_precision (precision_price (precision market)) price mode)
  end.

(** Float division and floor division raise on a zero divisor. *)
Definition float_div (a b : Q) : py Q :=
  if Qeq_bool b 0 then Raise ZeroDivisionError else Ok (a / b)%Q.

Definition float_floordiv (a b : Q) : py Z :=
  if Qeq_bool b 0 then Raise ZeroDivisionError else Ok (Qfloor (a / b)).

(** [a // b] on Decimals: [decimal.DivisionByZero] for a nonzero [a] over
    zero, [decimal.InvalidOperation] for [0 // 0]. *)
Definition Decimal_floordiv (a b : Decimal) : py Z :=
  if Dis_zero b
  then (if Dis_zero a then Raise InvalidOperation else Raise DecimalDivisionByZero)
  else Ok (Dfloordiv a b).


(** [l[-1] += x]. *)
Definition add_to_last (l : list Decimal) (x : Decimal) : py (list Decimal) :=
  match last l with
  | None => Raise IndexError
  | Some y => Ok (<[ pred (length l) := Dadd y x ]> l)
  end.

(** ** ems.py: [_calculate_twap_orders] *)
Definition _calculate_twap_orders (_market : gmap string BaseMarket)
    (symbol : string) (total_amount : Decimal) (duration wait : Q)
    (min_order_amount : Decimal) : py (list Decimal * Q) :=
  if Deqb total_amount Dzero then Ok ([], 0%Q)
  else if Dltb total_amount min_order_amount then Ok ([min_order_amount], 0%Q)
  else
    let! interval := float_floordiv duration wait in
    let! base_amount := float_div (Dval total_amount) (inject_Z interval) in
    let! rounded := _amount_to_precision _market symbol base_amount round in
    let base_amount := Dmax min_order_amount rounded in
    let! interval := Decimal_floordiv total_amount base_amount in
    let remaining := Dsub total_amount (Dmul_int interval base_amount) in
    let! amount_list :=
      if Dltb remaining min_order_amount
      then add_to_last (repeat base_amount (Z.to_nat interval)) remaining
      else Ok (repeat base_amount (Z.to_nat interval) ++ [remaining]) in
    let! wait := float_div duration (inject_Z (Z.of_nat (length amount_list))) in
    Ok (amount_list, wait).

(** ** constants.py and schema.py

    Neither file is part of the sources at hand; the enumerations and
    records below carry the members and fields that cache.py and ems.py
    use. *)

Module OrderStatus.
Inductive t :=
  | INITIALIZED | PENDING | ACCEPTED | PARTIALLY_FILLED | FILLED
  | CANCELING | CANCELED | FAILED | EXPIRED.
End OrderStatus.

Module AlgoOrderStatus.
Inductive t := INITIALIZED | RUNNING | FINISHED | CANCELING | CANCELED | FAILED.
End AlgoOrderStatus.

Module ExchangeType.
Inductive t := BINANCE | BYBIT | OKX.
End ExchangeType.

Module OrderSide.
Inductive t := BUY | SELL.
End OrderSide.

Module OrderType.
Inductive t := LIMIT | MARKET.
End OrderType.

#[global] Instance OrderStatus_eq_dec : EqDecision OrderStatus.t.
Proof. solve_decision. Defined.

#[global] Instance AlgoOrderStatus_eq_dec : EqDecision AlgoOrderStatus.t.
Proof. solve_decision. Defined.

#[global] Instance ExchangeType_eq_dec : EqDecision ExchangeType.t.
Proof. solve_decision. Defined.

#[global] Instance ExchangeType_countable : Countable ExchangeType.t.
Proof.
  refine (inj_countable'
    (fun e => match e with
              | ExchangeType.BINANCE => 0%nat
              | ExchangeType.BYBIT => 1%nat
              | ExchangeType.OKX => 2%nat
              end)
    (fun n => match n with
              | O => ExchangeType.BINANCE
              | S O => ExchangeType.BYBIT
              | _ => ExchangeType.OKX
              end) _).
  intros []; reflexivity.
Defined.

Module Order.
Record t := mk {
  uuid : string;
  id : option string;
  symbol : string;
  exchange : ExchangeType.t;
  status : OrderStatus.t;
  side : OrderSide.t;
  amount : Decimal;
  filled : Decimal;
  remaining : Decimal;
  timestamp : Z;
  success : bool
}.

Definition with_uuid (u : string) (o : t) : t :=
  mk u (id o) (symbol o) (exchange o) (status o) (side o) (amount o)
     (filled o) (remaining o) (timestamp o) (success o).

(** Modelled from the spec: [Order.is_closed] (schema.py is not among the
    sources), status in filled, canceled, failed, expired. *)
Definition is_closed (o : t) : bool :=
  match status o with
  | OrderStatus.FILLED | OrderStatus.CANCELED
  | OrderStatus.FAILED | OrderStatus.EXPIRED => true
  | _ => false
  end.

(** Modelled from the spec: [Order.is_opened] (schema.py is not among the
    sources), status in pending, accepted, partially_filled. *)
Definition is_opened (o : t) : bool :=
  match status o with
  | OrderStatus.PENDING | OrderStatus.ACCEPTED
  | OrderStatus.PARTIALLY_FILLED => true
  | _ => false
  end.

(** Modelled from the spec: [Order.on_flight] (schema.py is not among the
    sources), a cancel is outstanding. *)
Definition on_flight (o : t) : bool :=
  match status o with
  | OrderStatus.CANCELING => true
  | _ => false
  end.
End Order.

Module AlgoOrder.
Record t := mk {
  uuid : string;
  symbol : string;
  exchange : ExchangeType.t;
  status : AlgoOrderStatus.t;
  side : OrderSide.t;
  amount : Decimal;
  duration : Q;
  wait : Q;
  timestamp : Z;
  orders : list string
}.

Definition with_status (s : AlgoOrderStatus.t) (a : t) : t :=
  mk (uuid a) (symbol a) (exchange a) s (side a) (amount a)
     (duration a) (wait a) (timestamp a) (orders a).

Definition append_order (u : string) (a : t) : t :=
  mk (uuid a) (symbol a) (exchange a) (status a) (side a) (amount a)
     (duration a) (wait a) (timestamp a) (orders a ++ [u]).
End AlgoOrder.

(** The argument of [_order_initialized] and [_order_status_update]:
    [Order | AlgoOrder]. *)
Inductive AnyOrder :=
  | IsOrder (o : Order.t)
  | IsAlgoOrder (a : AlgoOrder.t).

(** Modelled from the spec: [STATUS_TRANSITIONS] of constants.py, the
    allowed-transition table of section 4.3; a terminal status allows no
    successor. *)
Definition STATUS_TRANSITIONS (s : OrderStatus.t) : list OrderStatus.t :=
  match s with
  | OrderStatus.INITIALIZED => [OrderStatus.PENDING; OrderStatus.FAILED]
  | OrderStatus.PENDING =>
      [OrderStatus.ACCEPTED; OrderStatus.PARTIALLY_FILLED; OrderStatus.FILLED;
       OrderStatus.CANCELING; OrderStatus.CANCELED; OrderStatus.FAILED;
       OrderStatus.EXPIRED]
  | OrderStatus.ACCEPTED =>
      [OrderStatus.PARTIALLY_FILLED; OrderStatus.FILLED; OrderStatus.CANCELING;
       OrderStatus.CANCELED; OrderStatus.EXPIRED]
  | OrderStatus.PARTIALLY_FILLED =>
      [OrderStatus.PARTIALLY_FILLED; OrderStatus.FILLED; OrderStatus.CANCELING;
       OrderStatus.CANCELED; OrderStatus.EXPIRED]
  | OrderStatus.CANCELING =>
      [OrderStatus.PARTIALLY_FILLED; OrderStatus.FILLED; OrderStatus.CANCELED;
       OrderStatus.FAILED]
  | _ => []
  end.

(** [x in (a, b, ...)]. *)
Definition status_in (s : OrderStatus.t) (l : list OrderStatus.t) : bool :=
  bool_decide (s ∈ l).

(** Modelled from the spec: [Position] (schema.py is not among the
    sources), the per-symbol aggregate that [_apply] updates from an order.
    It is kept as its constructor arguments and the orders applied to it, in
    order: every aggregate that [_apply] maintains is a function of this
    history, and [_apply] was called once more exactly when the history is
    one order longer. *)
Module Position.
Record t := mk {
  symbol : string;
  exchange : ExchangeType.t;
  applied : list Order.t
}.

Definition _apply (p : t) (o : Order.t) : t :=
  mk (symbol p) (exchange p) (applied p ++ [o]).
End Position.

Record BookL1 := mkBookL1 { book_symbol : string; bid : Q; ask : Q }.

(** ** cache.py: [AsyncCache] *)

Inductive LogLevel := DEBUG | ERROR.

Inductive CacheLog :=
  | InvalidStatusTransition (id : option string) (prev next : OrderStatus.t)
  | AlreadyClosed (uuid : string)
  | PositionUpdated (o : Order.t)
  | RemovingOrder (uuid : string)
  | RemovingOrderFromSymbol (uuid symbol : string)
  | RemovingAlgoOrder (uuid : string).

Definition cache_log_level (l : CacheLog) : LogLevel :=
  match l with
  | InvalidStatusTransition _ _ _ => ERROR
  | _ => DEBUG
  end.

(** The external key-value store as the cache reads it. *)
Record Redis := mkRedis {
  redis_orders : gmap string Order.t;
  redis_algo_orders : gmap string AlgoOrder.t;
  redis_positions : gmap string Position.t
}.

Record AsyncCache := mkCache {
  _mem_closed_orders : gmap string bool;
  _mem_orders : gmap string Order.t;
  _mem_algo_orders : gmap string AlgoOrder.t;
  _mem_open_orders : gmap ExchangeType.t (gset string);
  _mem_symbol_open_orders : gmap string (gset string);
  _mem_symbol_orders : gmap string (gset string);
  _mem_spot_positions : gmap string Position.t;
  _mem_future_positions : gmap string Position.t;
  _expire_time : Z;
  _bookl1_cache : gmap string BookL1;
  _r : Redis;
  _log : list CacheLog
}.

Definition new_cache (expire_time : Z) (r : Redis) : AsyncCache :=
  mkCache ∅ ∅ ∅ ∅ ∅ ∅ ∅ ∅ expire_time ∅ r [].

Definition set_mem_closed_orders (v : gmap string bool) (c : AsyncCache) :=
  mkCache v (_mem_orders c) (_mem_algo_orders c) (_mem_open_orders c)
    (_mem_symbol_open_orders c) (_mem_symbol_orders c) (_mem_spot_positions c)
    (_mem_future_positions c) (_expire_time c) (_bookl1_cache c) (_r c) (_log c).

Definition set_mem_orders (v : gmap string Order.t) (c : AsyncCache) :=
  mkCache (_mem_closed_orders c) v (_mem_algo_orders c) (_mem_open_orders c)
    (_mem_symbol_open_orders c) (_mem_symbol_orders c) (_mem_spot_positions c)
    (_mem_future_positions c) (_expire_time c) (_bookl1_cache c) (_r c) (_log c).

Definition set_mem_algo_orders (v : gmap string AlgoOrder.t) (c : AsyncCache) :=
  mkCache (_mem_closed_orders c) (_mem_orders c) v (_mem_open_orders c)
    (_mem_symbol_open_orders c) (_mem_symbol_orders c) (_mem_spot_positions c)
    (_mem_future_positions c) (_expire_time c) (_bookl1_cache c) (_r c) (_log c).

Definition set_mem_open_orders (v : gmap ExchangeType.t (gset string)) (c : AsyncCache) :=
  mkCache (_mem_closed_orders c) (_mem_orders c) (_mem_algo_orders c) v
    (_mem_symbol_open_orders c) (_mem_symbol_orders c) (_mem_spot_positions c)
    (_mem_future_positions c) (_expire_time c) (_bookl1_cache c) (_r c) (_log c).

Definition set_mem_symbol_open_orders (v : gmap string (gset string)) (c : AsyncCache) :=
  mkCache (_mem_closed_orders c) (_mem_orders c) (_mem_algo_orders c) (_mem_open_orders c)
    v (_mem_symbol_orders c) (_mem_spot_positions c)
    (_mem_future_positions c) (_expire_time c) (_bookl1_cache c) (_r c) (_log c).

Definition set_mem_symbol_orders (v : gmap string (gset string)) (c : AsyncCache) :=
  mkCache (_mem_closed_orders c) (_mem_orders c) (_mem_algo_orders c) (_mem_open_orders c)
    (_mem_symbol_open_orders c) v (_mem_spot_positions c)
    (_mem_future_positions c) (_expire_time c) (_bookl1_cache c) (_r c) (_log c).

Definition set_mem_spot_positions (v : gmap string Position.t) (c : AsyncCache) :=
  mkCache (_mem_closed_orders c) (_mem_orders c) (_mem_algo_orders c) (_mem_open_orders c)
    (_mem_symbol_open_orders c) (_mem_symbol_orders c) v
    (_mem_future_positions c) (_expire_time c) (_bookl1_cache c) (_r c) (_log c).

Definition set_mem_future_positions (v : gmap string Position.t) (c : AsyncCache) :=
  mkCache (_mem_closed_orders c) (_mem_orders c) (_mem_algo_orders c) (_mem_open_orders c)
    (_mem_symbol_open_orders c) (_mem_symbol_orders c) (_mem_spot_positions c)
    v (_expire_time c) (_bookl1_cache c) (_r c) (_log c).

Definition set_bookl1_cache (v : gmap string BookL1) (c : AsyncCache) :=
  mkCache (_mem_closed_orders c) (_mem_orders c) (_mem_algo_orders c) (_mem_open_orders c)
    (_mem_symbol_open_orders c) (_mem_symbol_orders c) (_mem_spot_positions c)
    (_mem_future_positions c) (_expire_time c) v (_r c) (_log c).

Definition log_cache (l : CacheLog) (c : AsyncCache) :=
  mkCache (_mem_closed_orders c) (_mem_orders c) (_mem_algo_orders c) (_mem_open_orders c)
    (_mem_symbol_open_orders c) (_mem_symbol_orders c) (_mem_spot_positions c)
    (_mem_future_positions c) (_expire_time c) (_bookl1_cache c) (_r c) (_log c ++ [l]).

(** [d[k].add(u)] and [d[k].discard(u)] on a [defaultdict(set)]: a missing
    key is created with the empty set. *)
Definition set_add {K} `{Countable K} (k : K) (u : string)
    (d : gmap K (gset string)) : gmap K (gset string) :=
  <[ k := d !!! k ∪ {[ u ]} ]> d.

Definition set_discard {K} `{Countable K} (k : K) (u : string)
    (d : gmap K (gset string)) : gmap K (gset string) :=
  <[ k := d !!! k ∖ {[ u ]} ]> d.

Definition _update_bookl1_cache (bookl1 : BookL1) (c : AsyncCache) : AsyncCache :=
  set_bookl1_cache (<[ book_symbol bookl1 := bookl1 ]> (_bookl1_cache c)) c.

Definition bookl1 (symbol : string) (c : AsyncCache) : option BookL1 :=
  _bookl1_cache c !! symbol.

Definition _check_status_transition (order : Order.t) (c : AsyncCache)
    : bool * AsyncCache :=
  match _mem_orders c !! Order.uuid order with
  | None => (true, c)
  | Some previous_order =>
      if negb (status_in (Order.status order)
                 (STATUS_TRANSITIONS (Order.status previous_order)))
      then (false,
            log_cache (InvalidStatusTransition (Order.id order)
                         (Order.status previous_order) (Order.status order)) c)
      else (true, c)
  end.

Definition _order_initialized (order : AnyOrder) (c : AsyncCache) : AsyncCache :=
  match order with
  | IsAlgoOrder a =>
      set_mem_algo_orders (<[ AlgoOrder.uuid a := a ]> (_mem_algo_orders c)) c
  | IsOrder o =>
      let '(ok, c) := _check_status_transition o c in
      if negb ok then c
      else
        let c := set_mem_orders (<[ Order.uuid o := o ]> (_mem_orders c)) c in
        let c := set_mem_open_orders
                   (set_add (Order.exchange o) (Order.uuid o) (_mem_open_orders c)) c in
        let c := set_mem_symbol_orders
                   (set_add (Order.symbol o) (Order.uuid o) (_mem_symbol_orders c)) c in
        set_mem_symbol_open_orders
          (set_add (Order.symbol o) (Order.uuid o) (_mem_symbol_open_orders c)) c
  end.

Definition _order_status_update (order : AnyOrder) (c : AsyncCache) : AsyncCache :=
  match order with
  | IsAlgoOrder a =>
      set_mem_algo_orders (<[ AlgoOrder.uuid a := a ]> (_mem_algo_orders c)) c
  | IsOrder o =>
      let '(ok, c) := _check_status_transition o c in
      if negb ok then c
      else
        let c := set_mem_orders (<[ Order.uuid o := o ]> (_mem_orders c)) c in
        if Order.is_closed o
        then
          let c := set_mem_open_orders
                     (set_discard (Order.exchange o) (Order.uuid o) (_mem_open_orders c)) c in
          set_mem_symbol_open_orders
            (set_discard (Order.symbol o) (Order.uuid o) (_mem_symbol_open_orders c)) c
        else c
  end.

(** One round of the loop [for uuid in expired_orders] of
    [_cleanup_expired_data]. *)
Definition remove_expired_order (c : AsyncCache) (uuid : string) : AsyncCache :=
  let c := set_mem_orders (delete uuid (_mem_orders c)) c in
  let c := set_mem_closed_orders (delete uuid (_mem_closed_orders c)) c in
  let c := log_cache (RemovingOrder uuid) c in
  foldl (fun c '(symbol, _) =>
           let c := log_cache (RemovingOrderFromSymbol uuid symbol) c in
           set_mem_symbol_orders (set_discard symbol uuid (_mem_symbol_orders c)) c)
        c (map_to_list (_mem_symbol_orders c)).

Definition remove_expired_algo_order (c : AsyncCache) (uuid : string) : AsyncCache :=
  let c := set_mem_algo_orders (delete uuid (_mem_algo_orders c)) c in
  log_cache (RemovingAlgoOrder uuid) c.

(** [current_time] is [self._clock.timestamp_ms()]. *)
Definition _cleanup_expired_data (current_time : Z) (c : AsyncCache) : AsyncCache :=
  let expire_before := current_time - _expire_time c * 1000 in
  let expired_orders :=
    map fst (List.filter (fun '(uuid, order) => Order.timestamp order <? expire_before)
               (map_to_list (_mem_orders c))) in
  let c := foldl remove_expired_order c expired_orders in
  let expired_algo_orders :=
    map fst (List.filter (fun '(uuid, algo_order) =>
                            AlgoOrder.timestamp algo_order <? expire_before)
               (map_to_list (_mem_algo_orders c))) in
  foldl remove_expired_algo_order c expired_algo_orders.

(** [InstrumentId.from_str(symbol).is_spot] belongs to schema.py; it is a
    parameter of the position functions. *)
Section Positions.
Variable is_spot : string -> bool.

Definition get_position (symbol : string) (c : AsyncCache)
    : option Position.t * AsyncCache :=
  let in_memory :=
    if is_spot symbol then _mem_spot_positions c !! symbol
    else _mem_future_positions c !! symbol in
  match in_memory with
  | Some position => (Some position, c)
  | None =>
      match redis_positions (_r c) !! symbol with
      | Some position =>
          if is_spot symbol
          then (Some position,
                set_mem_spot_positions (<[ symbol := position ]> (_mem_spot_positions c)) c)
          else (Some position,
                set_mem_future_positions (<[ symbol := position ]> (_mem_future_positions c)) c)
      | None => (None, c)
      end
  end.

Definition _apply_spot_position (order : Order.t) (c : AsyncCache) : AsyncCache :=
  let symbol := Order.symbol order in
  if default false (_mem_closed_orders c !! Order.uuid order)
  then log_cache (AlreadyClosed (Order.uuid order)) c
  else
    let c :=
      match _mem_spot_positions c !! symbol with
      | Some _ => c
      | None =>
          let '(position, c) := get_position symbol c in
          let position :=
            match position with
            | Some p => p
            | None => Position.mk symbol (Order.exchange order) []
            end in
          set_mem_spot_positions (<[ symbol := position ]> (_mem_spot_positions c)) c
      end in
    let c :=
      if status_in (Order.status order) [OrderStatus.FILLED; OrderStatus.CANCELED]
      then set_mem_closed_orders (<[ Order.uuid order := true ]> (_mem_closed_orders c)) c
      else c in
    if status_in (Order.status order)
         [OrderStatus.FILLED; OrderStatus.PARTIALLY_FILLED; OrderStatus.CANCELED]
    then
      let c := log_cache (PositionUpdated order) c in
      set_mem_spot_positions
        (alter (fun p => Position._apply p order) symbol (_mem_spot_positions c)) c
    else c.
End Positions.

Definition _apply_future_position (position : Position.t) (c : AsyncCache) : AsyncCache :=
  set_mem_future_positions
    (<[ Position.symbol position := position ]> (_mem_future_positions c)) c.

Definition get_order (uuid : string) (c : AsyncCache) : option AnyOrder * AsyncCache :=
  if String.prefix "ALGO-" uuid then
    match _mem_algo_orders c !! uuid with
    | Some order => (Some (IsAlgoOrder order), c)
    | None =>
        match redis_algo_orders (_r c) !! uuid with
        | Some order =>
            (Some (IsAlgoOrder order),
             set_mem_algo_orders (<[ uuid := order ]> (_mem_algo_orders c)) c)
        | None => (None, c)
        end
    end
  else
    match _mem_orders c !! uuid with
    | Some order => (Some (IsOrder order), c)
    | None =>
        match redis_orders (_r c) !! uuid with
        | Some order =>
            (Some (IsOrder order), set_mem_orders (<[ uuid := order ]> (_mem_orders c)) c)
        | None => (None, c)
        end
    end.

(** ** registry.py

    Modelled from the spec: [OrderRegistry] (section 4.1), the two maps
    between client uuids and venue order ids; registry.py is not among the
    sources. *)
Record OrderRegistry := mkRegistry {
  _uuid_to_order_id : gmap string string;
  _order_id_to_uuid : gmap string string
}.

(** Modelled from the spec: [register] files the order in both directions;
    an order without a venue id leaves no entry that [get_order_id] could
    return. *)
Definition register_order (order : Order.t) (r : OrderRegistry) : OrderRegistry :=
  match Order.id order with
  | Some order_id =>
      mkRegistry (<[ Order.uuid order := order_id ]> (_uuid_to_order_id r))
                 (<[ order_id := Order.uuid order ]> (_order_id_to_uuid r))
  | None => r
  end.

(** Modelled from the spec: [get_order_id(uuid)], [None] for an unknown
    uuid. *)
Definition get_order_id (uuid : string) (r : OrderRegistry) : option string :=
  _uuid_to_order_id r !! uuid.

(** The step that [to_precision] rounds to: the integer part of a precision
    of 1 or more, and the power of ten of the last digit of a precision
    below 1. *)
Definition lot_step (precision : Decimal) : Q :=
  if Dleb (mkDecimal 1 0) precision
  then inject_Z (Dto_int precision)
  else ((10 # 1) ^ exponent precision)%Q.

(** The [decimal] rounding that a mode selects. *)
Definition rounding_of (mode : Mode) : Rounding :=
  match mode with
  | round => ROUND_HALF_UP
  | ceil => ROUND_CEILING
  | floor => ROUND_FLOOR
  end.

(** ** ems.py: the execution management system *)

Module SubmitType.
Inductive t := CREATE | CANCEL | TWAP | CANCEL_TWAP.
End SubmitType.

Module OrderSubmit.
Record t := mk {
  symbol : string;
  submit_type : SubmitType.t;
  uuid : string;
  side : OrderSide.t;
  type : OrderType.t;
  amount : Decimal;
  price : option Decimal;
  duration : Q;
  wait : Q;
  exchange : ExchangeType.t
}.
End OrderSubmit.

(** A call made on a private connector. *)
Inductive ConnectorCall :=
  | create_order (account_type : string) (order_submit : OrderSubmit.t)
  | cancel_order (account_type : string) (symbol order_id : string).

Inductive EmsLog :=
  | OrderIdNotFound (uuid : string)
  | TwapOrderFailed (symbol : string) (side : OrderSide.t)
  | TwapOrderFinished (symbol : string) (side : OrderSide.t)
  | DebugOrderSubmit (order_submit : OrderSubmit.t)
  | DebugAmountList (amount_list : list Decimal) (min_order_amount : Decimal) (wait : Q)
  | DebugCancel (order : option Order.t).

Definition ems_log_level (l : EmsLog) : LogLevel :=
  match l with
  | OrderIdNotFound _ | TwapOrderFailed _ _ => ERROR
  | _ => DEBUG
  end.

(** The state an EMS works on.  [_msgbus] lists the messages sent, as
    [(endpoint, msg)], and [_connector_calls] the calls made on the private
    connectors, both oldest first; [_private_connectors] is the set of
    account types that have a connector. *)
Record EMS := mkEMS {
  _market : gmap string BaseMarket;
  _cache : AsyncCache;
  _msgbus : list (string * Order.t);
  _registry : OrderRegistry;
  _private_connectors : gset string;
  _connector_calls : list ConnectorCall;
  _ems_log : list EmsLog
}.

Definition set_cache (c : AsyncCache) (e : EMS) : EMS :=
  mkEMS (_market e) c (_msgbus e) (_registry e) (_private_connectors e)
        (_connector_calls e) (_ems_log e).

(** Stateful code that may raise: the state reached so far survives the
    exception. *)
Definition M (A : Type) : Type := EMS -> py A * EMS.

Definition ret {A} (a : A) : M A := fun e => (Ok a, e).
Definition raise {A} (x : PyExn) : M A := fun e => (Raise x, e).

Definition bind {A B} (m : M A) (k : A -> M B) : M B :=
  fun e => match m e with
           | (Ok a, e') => k a e'
           | (Raise x, e') => (Raise x, e')
           end.

Notation "'do' x '<-' m ';' k" := (bind m (fun x => k))
  (at level 10, x name, m at level 100, k at level 200, only parsing).
Notation "m '>>' k" := (bind m (fun _ => k))
  (at level 100, k at level 200, right associativity, only parsing).

Definition lift_py {A} (r : py A) : M A := fun e => (r, e).

Definition with_cache (f : AsyncCache -> AsyncCache) : M unit :=
  fun e => (Ok tt, set_cache (f (_cache e)) e).

Definition read_cache {A} (f : AsyncCache -> A * AsyncCache) : M A :=
  fun e => let '(a, c) := f (_cache e) in (Ok a, set_cache c e).

Definition send (endpoint : string) (msg : Order.t) : M unit :=
  fun e => (Ok tt,
            mkEMS (_market e) (_cache e) (_msgbus e ++ [(endpoint, msg)]) (_registry e)
                  (_private_connectors e) (_connector_calls e) (_ems_log e)).

Definition log_ems (l : EmsLog) : M unit :=
  fun e => (Ok tt,
            mkEMS (_market e) (_cache e) (_msgbus e) (_registry e)
                  (_private_connectors e) (_connector_calls e) (_ems_log e ++ [l])).

Definition registry_register (order : Order.t) : M unit :=
  fun e => (Ok tt,
            mkEMS (_market e) (_cache e) (_msgbus e) (register_order order (_registry e))
                  (_private_connectors e) (_connector_calls e) (_ems_log e)).

(** [await self._private_connectors[account_type].<call>]: the lookup
    raises [KeyError] for an unknown account type; otherwise the call is
    recorded and [response] is what the venue answers. *)
Definition call_connector (account_type : string) (call : ConnectorCall)
    (response : Order.t) : M Order.t :=
  fun e =>
    if bool_decide (account_type ∈ _private_connectors e)
    then (Ok response,
          mkEMS (_market e) (_cache e) (_msgbus e) (_registry e)
                (_private_connectors e) (_connector_calls e ++ [call]) (_ems_log e))
    else (Raise KeyError, e).

(** A Python string is true unless it is empty. *)
Definition truthy (s : option string) : option string :=
  match s with
  | Some EmptyString | None => None
  | Some s => Some s
  end.

Definition _cancel_order (response : Order.t) (order_submit : OrderSubmit.t)
    (account_type : string) : M (option Order.t) :=
  fun e =>
    match truthy (get_order_id (OrderSubmit.uuid order_submit) (_registry e)) with
    | Some order_id =>
        (do order <- call_connector account_type
                       (cancel_order account_type (OrderSubmit.symbol order_submit) order_id)
                       response ;
         let order := Order.with_uuid (OrderSubmit.uuid order_submit) order in
         (if Order.success order
          then with_cache (_order_status_update (IsOrder order)) >>
               send "canceling" order
          else send "cancel_failed" order) >>
         ret (Some order)) e
    | None =>
        (log_ems (OrderIdNotFound (OrderSubmit.uuid order_submit)) >>
         ret None) e
    end.

Definition _create_order (response : Order.t) (order_submit : OrderSubmit.t)
    (account_type : string) : M Order.t :=
  do order <- call_connector account_type (create_order account_type order_submit) response ;
  let order := Order.with_uuid (OrderSubmit.uuid order_submit) order in
  (if Order.success order
   then registry_register order >>
        with_cache (_order_initialized (IsOrder order)) >>
        send "pending" order
   else with_cache (_order_status_update (IsOrder order)) >>
        send "failed" order) >>
  ret order.


Definition _cal_limit_order_price (symbol : string) (side : OrderSide.t)
    (market : BaseMarket) : M Decimal :=
  fun e =>
    let basis_point := Dval (precision_price (precision market)) in
    match bookl1 symbol (_cache e) with
    | None => (Raise AttributeError, e)
    | Some book =>
        let price :=
          match side with
          | OrderSide.BUY =>
              if Qlt_le_dec basis_point (ask book - bid book)
              then (bid book + basis_point)%Q else bid book
          | OrderSide.SELL =>
              if Qlt_le_dec basis_point (ask book - bid book)
              then (ask book - basis_point)%Q else ask book
          end in
        (_price_to_precision (_market e) symbol price round, e)
    end.

(** ** The venues' minimum order amount *)


Definition Okx_get_min_order_amount (symbol : string) (market : BaseMarket)
    : M Decimal :=
  fun e =>
    let min_order_amount := limits_amount_min (limits market) in
    (_amount_to_precision (_market e) symbol min_order_amount ceil, e).


(** ** ems.py: [_twap_order]

    The coroutine is followed up to its normal end; a run is not cancelled
    from outside.  One [Env] describes what the surroundings do during one
    round of the [while] loop: the uuid given to an [OrderSubmit] built in
    that round, the answer of the connector to the call awaited in that
    round, and what other tasks do to the cache while the round awaits
    (applied after every round that continues the loop). *)
Record Env := mkEnv {
  fresh_uuid : string;
  connector_response : Order.t;
  interference : AsyncCache -> AsyncCache
}.

(** The local variables of the loop. *)
Record TwapLocals := mkLocals {
  amount_list : list Decimal;
  order_id : option string;
  elapsed_time : Q;
  algo_order : AlgoOrder.t
}.

Inductive Flow := Next | Break.

Section Twap.
Variable get_min_order_amount : string -> BaseMarket -> M Decimal.
Variable account_type : string.

(** The submission of a child order and what follows it; [sleeps] tells
    whether the success branch resets [elapsed_time] after sleeping. *)
Definition submit_child (env : Env) (order_submit : OrderSubmit.t)
    (sleeps : bool) (l : TwapLocals) : M (Flow * TwapLocals) :=
  do order <- _create_order (connector_response env) order_submit account_type ;
  if Order.success order then
    let algo := AlgoOrder.append_order (Order.uuid order) (algo_order l) in
    with_cache (_order_status_update (IsAlgoOrder algo)) >>
    ret (Next, mkLocals (amount_list l) (Some (Order.uuid order))
                 (if sleeps then 0%Q else elapsed_time l) algo)
  else
    let algo := AlgoOrder.with_status AlgoOrderStatus.FAILED (algo_order l) in
    with_cache (_order_status_update (IsAlgoOrder algo)) >>
    log_ems (TwapOrderFailed (AlgoOrder.symbol algo) (AlgoOrder.side algo)) >>
    ret (Break, mkLocals (amount_list l) (order_id l) (elapsed_time l) algo).

Definition child_submit (env : Env) (l : TwapLocals) (type : OrderType.t)
    (amount : Decimal) (price : option Decimal) : OrderSubmit.t :=
  OrderSubmit.mk (AlgoOrder.symbol (algo_order l)) SubmitType.CREATE (fresh_uuid env)
    (AlgoOrder.side (algo_order l)) type amount price 0%Q 0%Q
    (AlgoOrder.exchange (algo_order l)).

(** One round of [while amount_list:]. *)
Definition twap_round (market : BaseMarket) (min_order_amount : Decimal)
    (env : Env) (l : TwapLocals) : M (Flow * TwapLocals) :=
  let symbol := AlgoOrder.symbol (algo_order l) in
  let side := AlgoOrder.side (algo_order l) in
  match order_id l with
  | Some oid =>
      do found <- read_cache (get_order oid) ;
      match found with
      | Some (IsAlgoOrder _) => raise AttributeError
      | Some (IsOrder order) =>
          if Order.is_opened order && negb (Order.on_flight order) then
            _cancel_order (connector_response env)
              (OrderSubmit.mk symbol SubmitType.CANCEL oid side OrderType.LIMIT
                 Dzero None 0%Q 0%Q (AlgoOrder.exchange (algo_order l)))
              account_type >>
            log_ems (DebugCancel (Some order)) >>
            ret (Next, l)
          else if Order.is_closed order then
            let l := mkLocals (amount_list l) None (elapsed_time l) (algo_order l) in
            let remaining := Order.remaining order in
            if Dltb min_order_amount remaining then
              submit_child env
                (child_submit env l OrderType.MARKET remaining None) false l
            else
              match add_to_last (amount_list l) remaining with
              | Ok amounts =>
                  ret (Next, mkLocals amounts None (elapsed_time l) (algo_order l))
              | Raise _ => ret (Next, l)
              end
          else
            ret (Next, mkLocals (amount_list l) (order_id l)
                         (elapsed_time l + (1 # 10))%Q (algo_order l))
      | None =>
          ret (Next, mkLocals (amount_list l) (order_id l)
                       (elapsed_time l + (1 # 10))%Q (algo_order l))
      end
  | None =>
      do price <- _cal_limit_order_price symbol side market ;
      match last (amount_list l) with
      | None => raise IndexError
      | Some amount =>
          let l := mkLocals (removelast (amount_list l)) (order_id l)
                     (elapsed_time l) (algo_order l) in
          match amount_list l with
          | _ :: _ =>
              submit_child env
                (child_submit env l OrderType.LIMIT amount (Some price)) true l
          | [] =>
              submit_child env
                (child_submit env l OrderType.MARKET amount None) true l
          end
      end
  end.

(** The [while] loop; [None] when the rounds described by [envs] do not
    reach its end. *)
Fixpoint twap_loop (market : BaseMarket) (min_order_amount : Decimal)
    (envs : list Env) (l : TwapLocals) : M (option TwapLocals) :=
  match amount_list l with
  | [] => ret (Some l)
  | _ :: _ =>
      match envs with
      | [] => ret None
      | env :: envs =>
          do r <- twap_round market min_order_amount env l ;
          match r with
          | (Break, l) => ret (Some l)
          | (Next, l) =>
              with_cache (interference env) >>
              twap_loop market min_order_amount envs l
          end
      end
  end.

(** [timestamp] is [self._clock.timestamp_ms()]; the result tells whether
    the coroutine ran to its end within [envs]. *)
Definition _twap_order (timestamp : Z) (envs : list Env)
    (order_submit : OrderSubmit.t) : M bool :=
  fun e =>
    let symbol := OrderSubmit.symbol order_submit in
    match _market e !! symbol with
    | None => (Raise KeyError, e)
    | Some market =>
        let algo :=
          AlgoOrder.mk (OrderSubmit.uuid order_submit) symbol
            (OrderSubmit.exchange order_submit) AlgoOrderStatus.RUNNING
            (OrderSubmit.side order_submit) (OrderSubmit.amount order_submit)
            (OrderSubmit.duration order_submit) (OrderSubmit.wait order_submit)
            timestamp [] in
        (with_cache (_order_initialized (IsAlgoOrder algo)) >>
         log_ems (DebugOrderSubmit order_submit) >>
         do min_order_amount <- get_min_order_amount symbol market ;
         do sliced <- (fun e =>
                        (_calculate_twap_orders (_market e) symbol
                           (OrderSubmit.amount order_submit)
                           (OrderSubmit.duration order_submit)
                           (OrderSubmit.wait order_submit) min_order_amount, e)) ;
         log_ems (DebugAmountList (fst sliced) min_order_amount (snd sliced)) >>
         do finished <- twap_loop market min_order_amount envs
                          (mkLocals (fst sliced) None 0%Q algo) ;
         match finished with
         | None => ret false
         | Some l =>
             let algo := AlgoOrder.with_status AlgoOrderStatus.FINISHED (algo_order l) in
             with_cache (_order_status_update (IsAlgoOrder algo)) >>
             log_ems (TwapOrderFinished symbol (OrderSubmit.side order_submit)) >>
             ret true
         end) e
    end.
End Twap.





(** ** The venues' routing of submissions

    An account type is a member of the enumeration of one venue.  The
    enumerations are declared outside the sources at hand; a member is
    kept as its class and its name, and a member is true in a condition.
    [connectors] lists the keys of [_private_connectors] in the order of
    insertion; a queue is the list of its items, oldest first. *)

Inductive AccountType :=
  | OkxAccountType (name : string)
  | BybitAccountType (name : string)
  | BinanceAccountType (name : string).

#[global] Instance AccountType_eq_dec : EqDecision AccountType.
Proof. solve_decision. Defined.

#[global] Instance AccountType_countable : Countable AccountType.
Proof.
  refine (inj_countable'
    (fun a => match a with
              | OkxAccountType n => (0%nat, n)
              | BybitAccountType n => (1%nat, n)
              | BinanceAccountType n => (2%nat, n)
              end)
    (fun p => match p with
              | (O, n) => OkxAccountType n
              | (S O, n) => BybitAccountType n
              | (_, n) => BinanceAccountType n
              end) _).
  intros []; reflexivity.
Defined.

Definition is_okx (a : AccountType) : bool :=
  match a with OkxAccountType _ => true | _ => false end.
Definition is_bybit (a : AccountType) : bool :=
  match a with BybitAccountType _ => true | _ => false end.
Definition is_binance (a : AccountType) : bool :=
  match a with BinanceAccountType _ => true | _ => false end.

(** [self._order_submit_queues[account_type].put_nowait(order)], where
    [account_type] may be [None]. *)
Definition put_nowait (account_type : option AccountType) (order : OrderSubmit.t)
    (queues : gmap AccountType (list OrderSubmit.t))
    : py (gmap AccountType (list OrderSubmit.t)) :=
  match account_type with
  | None => Raise KeyError
  | Some a =>
      match queues !! a with
      | None => Raise KeyError
      | Some queue => Ok (<[ a := queue ++ [order] ]> queues)
      end
  end.

(** [for account_type in connectors: if isinstance(...): queues[account_type]
    = asyncio.Queue()], for every such key. *)
Definition build_queues (venue : AccountType -> bool) (connectors : list AccountType)
    (queues : gmap AccountType (list OrderSubmit.t))
    : gmap AccountType (list OrderSubmit.t) :=
  foldl (fun q a => if venue a then <[ a := [] ]> q else q) queues connectors.

Module Okx.
Record t := mk {
  _private_connectors : list AccountType;
  _order_submit_queues : gmap AccountType (list OrderSubmit.t);
  _okx_account_type : option AccountType
}.

Definition DEMO := OkxAccountType "DEMO".
Definition AWS := OkxAccountType "AWS".
Definition LIVE := OkxAccountType "LIVE".
Definition OKX_ACCOUNT_TYPE_PRIORITY : list AccountType := [DEMO; AWS; LIVE].

(** The loop breaks at the first OKX account type. *)
Definition _build_order_submit_queues (s : t) : t :=
  match List.find is_okx (_private_connectors s) with
  | Some account_type =>
      mk (_private_connectors s) (<[ account_type := [] ]> (_order_submit_queues s))
         (_okx_account_type s)
  | None => s
  end.

Definition _set_account_type (s : t) : t :=
  match List.find (fun a => bool_decide (a ∈ _private_connectors s))
          OKX_ACCOUNT_TYPE_PRIORITY with
  | Some account_type => mk (_private_connectors s) (_order_submit_queues s) (Some account_type)
  | None => s
  end.

(** [__init__] followed by [_build(private_connectors)]. *)
Definition _build (private_connectors : list AccountType) : t :=
  _set_account_type (_build_order_submit_queues (mk private_connectors ∅ None)).

Definition _submit_order (order : OrderSubmit.t) (account_type : option AccountType)
    (s : t) : py t :=
  let account_type :=
    match account_type with
    | Some a => Some a
    | None => _okx_account_type s
    end in
  let! queues := put_nowait account_type order (_order_submit_queues s) in
  Ok (mk (_private_connectors s) queues (_okx_account_type s)).
End Okx.

Module Bybit.
Record t := mk {
  _private_connectors : list AccountType;
  _order_submit_queues : gmap AccountType (list OrderSubmit.t);
  _bybit_account_type : option AccountType
}.

Definition UNIFIED_TESTNET := BybitAccountType "UNIFIED_TESTNET".
Definition UNIFIED := BybitAccountType "UNIFIED".

Definition _build_order_submit_queues (s : t) : t :=
  mk (_private_connectors s)
     (build_queues is_bybit (_private_connectors s) (_order_submit_queues s))
     (_bybit_account_type s).

Definition _set_account_type (s : t) : t :=
  mk (_private_connectors s) (_order_submit_queues s)
     (Some (if bool_decide (UNIFIED_TESTNET ∈ _private_connectors s)
            then UNIFIED_TESTNET else UNIFIED)).

Definition _build (private_connectors : list AccountType) : t :=
  _set_account_type (_build_order_submit_queues (mk private_connectors ∅ None)).

Definition _submit_order (order : OrderSubmit.t) (account_type : option AccountType)
    (s : t) : py t :=
  let account_type :=
    match account_type with
    | Some a => Some a
    | None => _bybit_account_type s
    end in
  let! queues := put_nowait account_type order (_order_submit_queues s) in
  Ok (mk (_private_connectors s) queues (_bybit_account_type s)).
End Bybit.

(** The kind of an instrument, as [InstrumentId] reports it. *)
Record InstrumentId := mkInstrumentId {
  is_spot : bool;
  is_linear : bool;
  is_inverse : bool
}.

Module Binance.
Record t := mk {
  _private_connectors : list AccountType;
  _order_submit_queues : gmap AccountType (list OrderSubmit.t);
  _binance_spot_account_type : option AccountType;
  _binance_linear_account_type : option AccountType;
  _binance_inverse_account_type : option AccountType;
  _binance_pm_account_type : option AccountType
}.

Definition ISOLATED_MARGIN := BinanceAccountType "ISOLATED_MARGIN".
Definition MARGIN := BinanceAccountType "MARGIN".
Definition SPOT_TESTNET := BinanceAccountType "SPOT_TESTNET".
Definition SPOT := BinanceAccountType "SPOT".
Definition PORTFOLIO_MARGIN := BinanceAccountType "PORTFOLIO_MARGIN".
Definition USD_M_FUTURE_TESTNET := BinanceAccountType "USD_M_FUTURE_TESTNET".
Definition USD_M_FUTURE := BinanceAccountType "USD_M_FUTURE".
Definition COIN_M_FUTURE_TESTNET := BinanceAccountType "COIN_M_FUTURE_TESTNET".
Definition COIN_M_FUTURE := BinanceAccountType "COIN_M_FUTURE".

Definition BINANCE_SPOT_PRIORITY : list AccountType :=
  [ISOLATED_MARGIN; MARGIN; SPOT_TESTNET; SPOT].

Definition _set_account_type (s : t) : t :=
  let account_types := _private_connectors s in
  if bool_decide (PORTFOLIO_MARGIN ∈ account_types)
  then mk account_types (_order_submit_queues s) (_binance_spot_account_type s)
          (_binance_linear_account_type s) (_binance_inverse_account_type s)
          (Some PORTFOLIO_MARGIN)
  else
    let spot :=
      match List.find (fun a => bool_decide (a ∈ account_types)) BINANCE_SPOT_PRIORITY with
      | Some a => Some a
      | None => _binance_spot_account_type s
      end in
    mk account_types (_order_submit_queues s) spot
       (Some (if bool_decide (USD_M_FUTURE_TESTNET ∈ account_types)
              then USD_M_FUTURE_TESTNET else USD_M_FUTURE))
       (Some (if bool_decide (COIN_M_FUTURE_TESTNET ∈ account_types)
              then COIN_M_FUTURE_TESTNET else COIN_M_FUTURE))
       (_binance_pm_account_type s).

Definition _instrument_id_to_account_type (instrument_id : InstrumentId) (s : t)
    : option AccountType :=
  match _binance_pm_account_type s with
  | Some pm => Some pm
  | None =>
      if is_spot instrument_id then _binance_spot_account_type s
      else if is_linear instrument_id then _binance_linear_account_type s
      else if is_inverse instrument_id then _binance_inverse_account_type s
      else None
  end.

Definition _build_order_submit_queues (s : t) : t :=
  mk (_private_connectors s)
     (build_queues is_binance (_private_connectors s) (_order_submit_queues s))
     (_binance_spot_account_type s) (_binance_linear_account_type s)
     (_binance_inverse_account_type s) (_binance_pm_account_type s).

Definition _build (private_connectors : list AccountType) : t :=
  _set_account_type
    (_build_order_submit_queues (mk private_connectors ∅ None None None None)).

(** [instrument_id] is [order.instrument_id]. *)
Definition _submit_order (order : OrderSubmit.t) (instrument_id : InstrumentId)
    (account_type : option AccountType) (s : t) : py t :=
  let account_type :=
    match account_type with
    | Some a => Some a
    | None => _instrument_id_to_account_type instrument_id s
    end in
  let! queues := put_nowait account_type order (_order_submit_queues s) in
  Ok (mk (_private_connectors s) queues (_binance_spot_account_type s)
         (_binance_linear_account_type s) (_binance_inverse_account_type s)
         (_binance_pm_account_type s)).
End Binance.

(** ** Call sequences on the cache *)

Inductive CacheCall :=
  | OrderInitialized (order : AnyOrder)
  | OrderStatusUpdate (order : AnyOrder)
  | CleanupExpiredData (current_time : Z).

Definition call (c : AsyncCache) (op : CacheCall) : AsyncCache :=
  match op with
  | OrderInitialized order => _order_initialized order c
  | OrderStatusUpdate order => _order_status_update order c
  | CleanupExpiredData current_time => _cleanup_expired_data current_time c
  end.

Definition run (ops : list CacheCall) (c : AsyncCache) : AsyncCache := foldl call c ops.

(** [d] files under [key o] exactly the uuids whose order [o] in [orders]
    is not closed. *)
Definition consistent_on {K} `{Countable K} (key : Order.t -> K)
    (orders : gmap string Order.t) (d : gmap K (gset string)) : Prop :=
  forall (k : K) (u : string),
    u ∈ d !!! k <->
    exists o, orders !! u = Some o /\ key o = k /\ Order.is_closed o = false.

(** The open sets hold exactly the uuids whose order in [_mem_orders] is
    not closed, filed under that order's exchange and symbol. *)
Definition open_sets_consistent (c : AsyncCache) : Prop :=
  consistent_on Order.exchange (_mem_orders c) (_mem_open_orders c) /\
  consistent_on Order.symbol (_mem_orders c) (_mem_symbol_open_orders c).

(** An order keeps the exchange and the symbol of the order it replaces. *)
Definition same_venue (c : AsyncCache) (o : Order.t) : Prop :=
  forall p, _mem_orders c !! Order.uuid o = Some p ->
            Order.exchange p = Order.exchange o /\ Order.symbol p = Order.symbol o.

(** The way the EMS and the OMS use the cache: an order is initialized
    while it is not closed; a uuid that the cache does not know yet is
    first reported by [_order_initialized], or by [_order_status_update]
    with a closed status (a failed submission); eviction runs when every
    expired order is closed. *)
Definition call_ok (c : AsyncCache) (op : CacheCall) : Prop :=
  match op with
  | OrderInitialized (IsOrder o) => Order.is_closed o = false /\ same_venue c o
  | OrderStatusUpdate (IsOrder o) =>
      same_venue c o /\
      (_mem_orders c !! Order.uuid o = None -> Order.is_closed o = true)
  | CleanupExpiredData current_time =>
      forall u o, _mem_orders c !! u = Some o ->
                  Order.timestamp o < current_time - _expire_time c * 1000 ->
                  Order.is_closed o = true
  | _ => True
  end.

Fixpoint calls_ok (c : AsyncCache) (ops : list CacheCall) : Prop :=
  match ops with
  | [] => True
  | op :: ops => call_ok c op /\ calls_ok (call c op) ops
  end.

(** The order maps of the cache, and the state [_apply_spot_position] works
    on. *)
Definition order_maps (c : AsyncCache) :=
  (_mem_orders c, _mem_open_orders c, _mem_symbol_open_orders c, _mem_symbol_orders c).

Definition position_state (c : AsyncCache) :=
  (_mem_closed_orders c, _mem_spot_positions c, _mem_future_positions c, _r c).

(** One delivery of a status update by the OMS. *)
Definition deliver (is_spot : string -> bool) (order : Order.t) (c : AsyncCache)
    : AsyncCache :=
  _apply_spot_position is_spot order (_order_status_update (IsOrder order) c).

(** ** Sample data *)

(** A market table with one symbol: lot size 0.001, tick 0.1, minimum
    amount 0.001. *)
Definition test_market : gmap string BaseMarket :=
  {[ "BTCUSDT"%string :=
       mkMarket (mkPrecision (mkDecimal 1 (-3)) (mkDecimal 1 (-1))) (mkLimits (1 # 1000)) ]}.

Definition empty_redis : Redis := mkRedis ∅ ∅ ∅.

(** A pending order stamped at t = 1000 ms, and a running TWAP parent. *)
Definition order1 : Order.t :=
  Order.mk "u1" (Some "V1"%string) "BTCUSDT" ExchangeType.BYBIT OrderStatus.PENDING
    OrderSide.BUY (mkDecimal 1 (-3)) Dzero (mkDecimal 1 (-3)) 1000 true.

Definition algo1 : AlgoOrder.t :=
  AlgoOrder.mk "ALGO-1" "BTCUSDT" ExchangeType.BYBIT AlgoOrderStatus.RUNNING
    OrderSide.BUY (mkDecimal 3 (-2)) 30 10 1000 [].

(** A cache that has seen one top of book, and an EMS with one private
    connector, an empty registry and nothing sent yet. *)
Definition sample_cache : AsyncCache :=
  _update_bookl1_cache (mkBookL1 "BTCUSDT" 65000 65001) (new_cache 3600 empty_redis).

Definition sample_ems : EMS :=
  mkEMS test_market sample_cache [] (mkRegistry ∅ ∅) {[ "UNIFIED_TESTNET"%string ]} [] [].

(** The submission of [order1], and the EMS after the venue accepted it. *)
Definition submit1 : OrderSubmit.t :=
  OrderSubmit.mk "BTCUSDT" SubmitType.CREATE "u1" OrderSide.BUY OrderType.LIMIT
    (mkDecimal 1 (-3)) (Some (mkDecimal 650000 (-1))) 0%Q 0%Q ExchangeType.BYBIT.

Definition ems_with_order1 : EMS :=
  snd (_create_order order1 submit1 "UNIFIED_TESTNET" sample_ems).

Definition cancel1 : OrderSubmit.t :=
  OrderSubmit.mk "BTCUSDT" SubmitType.CANCEL "u1" OrderSide.BUY OrderType.LIMIT
    Dzero None 0%Q 0%Q ExchangeType.BYBIT.

(** What the venue answers to a cancel of [order1]: accepted, or refused. *)
Definition canceling1 : Order.t :=
  Order.mk "" (Some "V1"%string) "BTCUSDT" ExchangeType.BYBIT OrderStatus.CANCELING
    OrderSide.BUY (mkDecimal 1 (-3)) Dzero (mkDecimal 1 (-3)) 3000 true.

Definition cancel_refused1 : Order.t :=
  Order.mk "" (Some "V1"%string) "BTCUSDT" ExchangeType.BYBIT OrderStatus.FAILED
    OrderSide.BUY (mkDecimal 1 (-3)) Dzero (mkDecimal 1 (-3)) 3000 false.

(** A TWAP of 0.03 over 30 s in slots of 10 s, and a round in which the
    venue refuses the child order. *)
Definition twap1 : OrderSubmit.t :=
  OrderSubmit.mk "BTCUSDT" SubmitType.TWAP "ALGO-1" OrderSide.BUY OrderType.LIMIT
    (mkDecimal 3 (-2)) None 30 10 ExchangeType.BYBIT.

Definition refused_child : Order.t :=
  Order.mk "" None "BTCUSDT" ExchangeType.BYBIT OrderStatus.FAILED
    OrderSide.BUY (mkDecimal 10 (-3)) Dzero (mkDecimal 10 (-3)) 5000 false.

Definition refusing_round : Env := mkEnv "c1" refused_child (fun c => c).

(** A TWAP of 0.0005, below the minimum amount of the market, and a round
    in which the venue accepts the child order. *)
Definition twap_small : OrderSubmit.t :=
  OrderSubmit.mk "BTCUSDT" SubmitType.TWAP "ALGO-2" OrderSide.BUY OrderType.LIMIT
    (mkDecimal 5 (-4)) None 30 10 ExchangeType.BYBIT.

Definition accepted_child : Order.t :=
  Order.mk "" (Some "V2"%string) "BTCUSDT" ExchangeType.BYBIT OrderStatus.PENDING
    OrderSide.BUY (mkDecimal 1 (-3)) Dzero (mkDecimal 1 (-3)) 5000 true.

Definition accepting_round : Env := mkEnv "c1" accepted_child (fun c => c).




(** * Properties *)

(** ** Decimal arithmetic *)

Lemma pow10_pos (e : Z) : (0 < (10 # 1) ^ e)%Q.
Proof. apply Qpower_0_lt. reflexivity. Qed.


Lemma pow10_shift (c e k : Z) :
  0 <= k ->
  (inject_Z (c * 10 ^ k) * (10 # 1) ^ e == inject_Z c * (10 # 1) ^ (k + e))%Q.
Proof.
  intros Hk.
  rewrite inject_Z_mult, (Zpower_Qpower 10 k Hk).
  rewrite (Qpower_plus (10 # 1) k e) by discriminate.
  change (inject_Z 10) with (10 # 1). ring.
Qed.

Lemma Dalign_val (a b : Decimal) :
  let '(ca, cb, e) := Dalign a b in
  (Dval a == inject_Z ca * (10 # 1) ^ e)%Q /\ (Dval b == inject_Z cb * (10 # 1) ^ e)%Q.
Proof.
  unfold Dalign, Dval. split.
  - rewrite pow10_shift by lia.
    replace (exponent a - Z.min (exponent a) (exponent b) + Z.min (exponent a) (exponent b))
      with (exponent a) by lia. reflexivity.
  - rewrite pow10_shift by lia.
    replace (exponent b - Z.min (exponent a) (exponent b) + Z.min (exponent a) (exponent b))
      with (exponent b) by lia. reflexivity.
Qed.




Lemma Dval_zero : (Dval Dzero == 0)%Q.
Proof. reflexivity. Qed.

Lemma Dcompare_val (a b : Decimal) : Dcompare a b = (Dval a ?= Dval b)%Q.
Proof.
  pose proof (Dalign_val a b) as H. unfold Dcompare.
  destruct (Dalign a b) as [[ca cb] e]. destruct H as [Ha Hb].
  rewrite Ha, Hb.
  pose proof (pow10_pos e) as P.
  destruct (Z.compare_spec ca cb) as [Heq | Hlt | Hgt]; symmetry.
  - subst. apply Qeq_alt. reflexivity.
  - apply Qlt_alt. apply Qmult_lt_compat_r; [exact P |]. rewrite <- Zlt_Qlt. exact Hlt.
  - apply Qgt_alt. apply Qmult_lt_compat_r; [exact P |]. rewrite <- Zlt_Qlt. exact Hgt.
Qed.

Lemma Dltb_lt (a b : Decimal) : Dltb a b = true <-> (Dval a < Dval b)%Q.
Proof.
  unfold Dltb. rewrite Dcompare_val, Qlt_alt.
  destruct (Dval a ?= Dval b)%Q; split; congruence.
Qed.


Lemma Deqb_eq (a b : Decimal) : Deqb a b = true <-> (Dval a == Dval b)%Q.
Proof.
  unfold Deqb. rewrite Dcompare_val, Qeq_alt.
  destruct (Dval a ?= Dval b)%Q; split; congruence.
Qed.






(** ** Lists of slices *)





(** ** [_calculate_twap_orders] *)






Lemma calculate_below_min (_market : gmap string BaseMarket) (symbol : string)
    (total : Decimal) (duration wait : Q) (min : Decimal) :
  ~ (Dval total == 0)%Q -> (Dval total < Dval min)%Q ->
  _calculate_twap_orders _market symbol total duration wait min = Ok ([min], 0%Q).
Proof.
  intros Hnz Hlt. unfold _calculate_twap_orders.
  replace (Deqb total Dzero) with false.
  - apply Dltb_lt in Hlt. rewrite Hlt. reflexivity.
  - symmetry. apply not_true_iff_false. rewrite Deqb_eq, Dval_zero. exact Hnz.
Qed.





(** ** [_amount_to_precision] *)

(** C9. With amount precision 0.001, [_amount_to_precision] maps 0.0015 to
    0.002 in mode [round], to 0.002 in mode [ceil] and to 0.001 in mode
    [floor], as exact Decimals. *)
Theorem amount_to_precision_0_0015 (_market : gmap string BaseMarket)
    (symbol : string) (market : BaseMarket) :
  _market !! symbol = Some market ->
  precision_amount (precision market) = mkDecimal 1 (-3) ->
  _amount_to_precision _market symbol (15 # 10000) round = Ok (mkDecimal 2 (-3)) /\
  _amount_to_precision _market symbol (15 # 10000) ceil = Ok (mkDecimal 2 (-3)) /\
  _amount_to_precision _market symbol (15 # 10000) floor = Ok (mkDecimal 1 (-3)).
Proof.
  intros Hm Hp. unfold _amount_to_precision. rewrite Hm, Hp.
  repeat split; vm_compute; reflexivity.
Qed.

Lemma amount_to_precision_0_0015_witness :
  _amount_to_precision test_market "BTCUSDT" (15 # 10000) round = Ok (mkDecimal 2 (-3)) /\
  _amount_to_precision test_market "BTCUSDT" (15 # 10000) ceil = Ok (mkDecimal 2 (-3)) /\
  _amount_to_precision test_market "BTCUSDT" (15 # 10000) floor = Ok (mkDecimal 1 (-3)).
Proof.
  apply (amount_to_precision_0_0015 test_market "BTCUSDT"
           (mkMarket (mkPrecision (mkDecimal 1 (-3)) (mkDecimal 1 (-1)))
              (mkLimits (1 # 1000)))); reflexivity.
Defined.

(** ** Preconditions of [_calculate_twap_orders] *)






(** ** The status transition check *)

Lemma status_in_elem (s : OrderStatus.t) (l : list OrderStatus.t) :
  status_in s l = true <-> s ∈ l.
Proof. unfold status_in. apply bool_decide_eq_true. Qed.

Lemma order_update_dropped (o prev : Order.t) (c : AsyncCache) :
  _mem_orders c !! Order.uuid o = Some prev ->
  Order.status o ∉ STATUS_TRANSITIONS (Order.status prev) ->
  _order_status_update (IsOrder o) c =
    log_cache (InvalidStatusTransition (Order.id o) (Order.status prev) (Order.status o)) c.
Proof.
  intros Hp Hn. unfold _order_status_update, _check_status_transition. rewrite Hp.
  destruct (status_in _ _) eqn:E; [| reflexivity].
  apply status_in_elem in E. contradiction.
Qed.

Lemma order_update_committed (o : Order.t) (c : AsyncCache) :
  (forall prev, _mem_orders c !! Order.uuid o = Some prev ->
                Order.status o ∈ STATUS_TRANSITIONS (Order.status prev)) ->
  _order_status_update (IsOrder o) c =
    let c := set_mem_orders (<[ Order.uuid o := o ]> (_mem_orders c)) c in
    if Order.is_closed o
    then set_mem_symbol_open_orders
           (set_discard (Order.symbol o) (Order.uuid o) (_mem_symbol_open_orders c))
           (set_mem_open_orders
              (set_discard (Order.exchange o) (Order.uuid o) (_mem_open_orders c)) c)
    else c.
Proof.
  intros Hp. unfold _order_status_update, _check_status_transition.
  destruct (_mem_orders c !! Order.uuid o) as [prev |] eqn:E; [| reflexivity].
  specialize (Hp prev eq_refl). apply status_in_elem in Hp. rewrite Hp. reflexivity.
Qed.

(** C4. When [_order_status_update] receives an order whose uuid has a
    prior order in [_mem_orders]: a pair (prior status, new status) outside
    [STATUS_TRANSITIONS] drops the update, logs one error and leaves
    [_mem_orders], [_mem_open_orders] and [_mem_symbol_open_orders] (and
    every other part of the cache) as they were; a pair inside the table
    commits the new order. *)
Theorem order_status_update_follows_table (o prev : Order.t) (c : AsyncCache) :
  _mem_orders c !! Order.uuid o = Some prev ->
  let c' := _order_status_update (IsOrder o) c in
  (Order.status o ∉ STATUS_TRANSITIONS (Order.status prev) ->
   let entry :=
     InvalidStatusTransition (Order.id o) (Order.status prev) (Order.status o) in
   c' = log_cache entry c /\
   _log c' = _log c ++ [entry] /\ cache_log_level entry = ERROR /\
   _mem_orders c' = _mem_orders c /\
   _mem_open_orders c' = _mem_open_orders c /\
   _mem_symbol_open_orders c' = _mem_symbol_open_orders c) /\
  (Order.status o ∈ STATUS_TRANSITIONS (Order.status prev) ->
   _mem_orders c' = <[ Order.uuid o := o ]> (_mem_orders c) /\
   _mem_orders c' !! Order.uuid o = Some o /\
   _log c' = _log c).
Proof.
  intros Hp c'. split.
  - intros Hn entry. subst c'. rewrite (order_update_dropped o prev c Hp Hn).
    repeat split.
  - intros Hin. subst c'. rewrite order_update_committed.
    + cbv zeta. destruct (Order.is_closed o); simpl; rewrite lookup_insert_eq; repeat split.
    + intros p Hp'. rewrite Hp in Hp'. injection Hp' as <-. exact Hin.
Qed.

Lemma order_status_update_follows_table_witness :
  let c := _order_initialized (IsOrder order1) (new_cache 3600 empty_redis) in
  let again := order1 in
  let filled :=
    Order.mk "u1" (Some "V1"%string) "BTCUSDT" ExchangeType.BYBIT OrderStatus.FILLED
      OrderSide.BUY (mkDecimal 1 (-3)) (mkDecimal 1 (-3)) Dzero 2000 true in
  _mem_orders (_order_status_update (IsOrder again) c) = _mem_orders c /\
  _mem_orders (_order_status_update (IsOrder filled) c) !! "u1"%string = Some filled.
Proof.
  intros c again filled. split.
  - destruct (order_status_update_follows_table again order1 c) as [Hdrop _].
    + reflexivity.
    + apply Hdrop. compute_done.
  - destruct (order_status_update_follows_table filled order1 c) as [_ Hcommit].
    + reflexivity.
    + apply Hcommit. compute_done.
Defined.

(** ** TTL eviction *)

Lemma symbol_discard_frame (uuid : string) (l : list (string * gset string))
    (c : AsyncCache) :
  let c' :=
    foldl (fun c '(symbol, _) =>
             let c := log_cache (RemovingOrderFromSymbol uuid symbol) c in
             set_mem_symbol_orders (set_discard symbol uuid (_mem_symbol_orders c)) c)
          c l in
  _mem_orders c' = _mem_orders c /\
  _mem_closed_orders c' = _mem_closed_orders c /\
  _mem_algo_orders c' = _mem_algo_orders c /\
  _mem_open_orders c' = _mem_open_orders c /\
  _mem_symbol_open_orders c' = _mem_symbol_open_orders c /\
  _expire_time c' = _expire_time c.
Proof.
  revert c. induction l as [| [symbol set] l IH]; intros c; [repeat split |].
  simpl. specialize (IH (set_mem_symbol_orders
    (set_discard symbol uuid (_mem_symbol_orders (log_cache (RemovingOrderFromSymbol uuid symbol) c)))
    (log_cache (RemovingOrderFromSymbol uuid symbol) c))).
  exact IH.
Qed.

Lemma remove_expired_order_frame (c : AsyncCache) (uuid : string) :
  let c' := remove_expired_order c uuid in
  _mem_orders c' = delete uuid (_mem_orders c) /\
  _mem_closed_orders c' = delete uuid (_mem_closed_orders c) /\
  _mem_algo_orders c' = _mem_algo_orders c /\
  _mem_open_orders c' = _mem_open_orders c /\
  _mem_symbol_open_orders c' = _mem_symbol_open_orders c /\
  _expire_time c' = _expire_time c.
Proof.
  unfold remove_expired_order.
  match goal with
  | |- context [foldl ?f ?c0 ?l] => pose proof (symbol_discard_frame uuid l c0) as H
  end.
  exact H.
Qed.

Lemma remove_expired_orders_frame (uuids : list string) (c : AsyncCache) :
  let c' := foldl remove_expired_order c uuids in
  _mem_orders c' = foldl (fun m u => delete u m) (_mem_orders c) uuids /\
  _mem_algo_orders c' = _mem_algo_orders c /\
  _mem_open_orders c' = _mem_open_orders c /\
  _mem_symbol_open_orders c' = _mem_symbol_open_orders c /\
  _expire_time c' = _expire_time c.
Proof.
  revert c. induction uuids as [| u uuids IH]; intros c; [repeat split |].
  simpl. destruct (remove_expired_order_frame c u) as (Ho & _ & Ha & Hop & Hs & He).
  destruct (IH (remove_expired_order c u)) as (Ho' & Ha' & Hop' & Hs' & He').
  rewrite Ho', Ha', Hop', Hs', He', Ho, Ha, Hop, Hs, He. repeat split.
Qed.

Lemma remove_expired_algo_orders_frame (uuids : list string) (c : AsyncCache) :
  let c' := foldl remove_expired_algo_order c uuids in
  _mem_algo_orders c' = foldl (fun m u => delete u m) (_mem_algo_orders c) uuids /\
  _mem_orders c' = _mem_orders c /\
  _mem_open_orders c' = _mem_open_orders c /\
  _mem_symbol_open_orders c' = _mem_symbol_open_orders c.
Proof.
  revert c. induction uuids as [| u uuids IH]; intros c; [repeat split |].
  simpl. destruct (IH (remove_expired_algo_order c u)) as (Ha & Ho & Hop & Hs).
  rewrite Ha, Ho, Hop, Hs. repeat split.
Qed.

Lemma lookup_delete_all {A} (uuids : list string) (m : gmap string A) (k : string) :
  foldl (fun m u => delete u m) m uuids !! k = if decide (k ∈ uuids) then None else m !! k.
Proof.
  revert m. induction uuids as [| u uuids IH]; intros m.
  - destruct (decide (k ∈ [])) as [Hin | _]; [| reflexivity].
    apply elem_of_nil in Hin. contradiction.
  - change (foldl (fun m u => delete u m) m (u :: uuids))
      with (foldl (fun m u => delete u m) (delete u m) uuids).
    rewrite IH.
    destruct (decide (k ∈ uuids)) as [Hin | Hout];
      destruct (decide (k ∈ u :: uuids)) as [Hin' | Hout']; try reflexivity.
    + exfalso. apply Hout'. apply elem_of_cons. auto.
    + apply elem_of_cons in Hin' as [-> | ?]; [| contradiction].
      apply lookup_delete_eq.
    + apply lookup_delete_ne. intros ->. apply Hout'. apply elem_of_cons. auto.
Qed.

Lemma elem_of_expired {A} (old : A -> bool) (m : gmap string A) (k : string) :
  k ∈ map fst (List.filter (fun '(uuid, x) => old x) (map_to_list m)) <->
  exists x, m !! k = Some x /\ old x = true.
Proof.
  rewrite list_elem_of_In, in_map_iff. split.
  - intros [[k' x] [<- Hin]]. apply filter_In in Hin as [Hin Hold].
    apply list_elem_of_In, elem_of_map_to_list in Hin. exists x. split; assumption.
  - intros [x [Hk Hold]]. exists (k, x). split; [reflexivity |].
    apply filter_In. split; [| exact Hold].
    apply list_elem_of_In, elem_of_map_to_list. exact Hk.
Qed.

Lemma lookup_evicted {A} (old : A -> bool) (m : gmap string A) (k : string) :
  foldl (fun m u => delete u m) m
    (map fst (List.filter (fun '(uuid, x) => old x) (map_to_list m))) !! k =
  match m !! k with
  | Some x => if old x then None else Some x
  | None => None
  end.
Proof.
  rewrite lookup_delete_all.
  destruct (decide _) as [Hin | Hout].
  - apply elem_of_expired in Hin as [x [-> ->]]. reflexivity.
  - destruct (m !! k) as [x |] eqn:E; [| reflexivity].
    destruct (old x) eqn:Hold; [| reflexivity].
    exfalso. apply Hout. apply elem_of_expired. exists x. split; assumption.
Qed.

Lemma cleanup_orders (now : Z) (c : AsyncCache) (u : string) :
  _mem_orders (_cleanup_expired_data now c) !! u =
  match _mem_orders c !! u with
  | Some o => if Order.timestamp o <? now - _expire_time c * 1000 then None else Some o
  | None => None
  end.
Proof.
  unfold _cleanup_expired_data. cbv zeta.
  match goal with
  | |- context [foldl remove_expired_algo_order ?c0 ?l] =>
      destruct (remove_expired_algo_orders_frame l c0) as (_ & -> & _)
  end.
  match goal with
  | |- context [foldl remove_expired_order c ?l] =>
      destruct (remove_expired_orders_frame l c) as (-> & _)
  end.
  apply (lookup_evicted (fun o => Order.timestamp o <? now - _expire_time c * 1000)).
Qed.

Lemma cleanup_algo_orders (now : Z) (c : AsyncCache) (u : string) :
  _mem_algo_orders (_cleanup_expired_data now c) !! u =
  match _mem_algo_orders c !! u with
  | Some a => if AlgoOrder.timestamp a <? now - _expire_time c * 1000 then None else Some a
  | None => None
  end.
Proof.
  unfold _cleanup_expired_data. cbv zeta.
  match goal with
  | |- context [foldl remove_expired_algo_order ?c0 ?l] =>
      destruct (remove_expired_algo_orders_frame l c0) as (-> & _)
  end.
  match goal with
  | |- context [foldl remove_expired_order c ?l] =>
      destruct (remove_expired_orders_frame l c) as (_ & -> & _)
  end.
  apply (lookup_evicted (fun a => AlgoOrder.timestamp a <? now - _expire_time c * 1000)).
Qed.

Lemma cleanup_open_sets (now : Z) (c : AsyncCache) :
  _mem_open_orders (_cleanup_expired_data now c) = _mem_open_orders c /\
  _mem_symbol_open_orders (_cleanup_expired_data now c) = _mem_symbol_open_orders c.
Proof.
  unfold _cleanup_expired_data. cbv zeta.
  match goal with
  | |- context [foldl remove_expired_algo_order ?c0 ?l] =>
      destruct (remove_expired_algo_orders_frame l c0) as (_ & _ & -> & ->)
  end.
  match goal with
  | |- context [foldl remove_expired_order c ?l] =>
      destruct (remove_expired_orders_frame l c) as (_ & _ & -> & -> & _)
  end.
  split; reflexivity.
Qed.

(** C2, as amended.  [_cleanup_expired_data] evicts an [Order] or an
    [AlgoOrder] exactly when its timestamp is older than
    [now - expire_time * 1000]; the status plays no part. *)
Theorem cleanup_evicts_by_timestamp (now : Z) (c : AsyncCache) (u : string) :
  _mem_orders (_cleanup_expired_data now c) !! u =
    match _mem_orders c !! u with
    | Some o => if Order.timestamp o <? now - _expire_time c * 1000 then None else Some o
    | None => None
    end /\
  _mem_algo_orders (_cleanup_expired_data now c) !! u =
    match _mem_algo_orders c !! u with
    | Some a => if AlgoOrder.timestamp a <? now - _expire_time c * 1000 then None else Some a
    | None => None
    end.
Proof. split; [apply cleanup_orders | apply cleanup_algo_orders]. Qed.

(** The claim C2 as stated fails: a pending order and a running TWAP parent
    with an old timestamp are evicted. *)
Lemma cleanup_keeps_open_orders_counterexample :
  let c := _order_initialized (IsAlgoOrder algo1)
             (_order_initialized (IsOrder order1) (new_cache 3600 empty_redis)) in
  (_mem_orders c !! "u1"%string = Some order1 /\
   Order.is_closed order1 = false /\
   Order.timestamp order1 < 4000000 - _expire_time c * 1000 /\
   _mem_orders (_cleanup_expired_data 4000000 c) !! "u1"%string = None) /\
  (_mem_algo_orders c !! "ALGO-1"%string = Some algo1 /\
   AlgoOrder.status algo1 = AlgoOrderStatus.RUNNING /\
   _mem_algo_orders (_cleanup_expired_data 4000000 c) !! "ALGO-1"%string = None).
Proof. vm_compute. repeat split. Qed.

(** ** The open sets *)

Lemma set_add_elem {K} {HeqK : EqDecision K} {HcountK : Countable K} (k k' : K) (u u' : string) (d : gmap K (gset string)) :
  u' ∈ set_add k u d !!! k' <-> (k' = k /\ u' = u) \/ u' ∈ d !!! k'.
Proof.
  unfold set_add. destruct (decide (k = k')) as [-> | Hne].
  - rewrite lookup_total_insert_eq. set_solver.
  - rewrite lookup_total_insert_ne by exact Hne. naive_solver.
Qed.

Lemma set_discard_elem {K} {HeqK : EqDecision K} {HcountK : Countable K} (k k' : K) (u u' : string)
    (d : gmap K (gset string)) :
  u' ∈ set_discard k u d !!! k' <-> u' ∈ d !!! k' /\ ~ (k' = k /\ u' = u).
Proof.
  unfold set_discard. destruct (decide (k = k')) as [-> | Hne].
  - rewrite lookup_total_insert_eq. set_solver.
  - rewrite lookup_total_insert_ne by exact Hne. naive_solver.
Qed.

Section Consistent.
Context {K : Type} {HeqK : EqDecision K} {HcountK : Countable K}.
Variable key : Order.t -> K.
Variable orders : gmap string Order.t.
Variable d : gmap K (gset string).
Hypothesis Hc : consistent_on key orders d.

Lemma consistent_add (o : Order.t) :
  Order.is_closed o = false ->
  (forall p, orders !! Order.uuid o = Some p -> key p = key o) ->
  consistent_on key (<[ Order.uuid o := o ]> orders) (set_add (key o) (Order.uuid o) d).
Proof.
  intros Hopen Hkey k u. rewrite set_add_elem, (Hc k u).
  destruct (decide (u = Order.uuid o)) as [-> | Hne].
  - rewrite lookup_insert_eq. split.
    + intros [[-> _] | (p & Hp & <- & _)]; exists o; repeat split; auto.
      symmetry. apply Hkey, Hp.
    + intros (o' & [= <-] & <- & _). auto.
  - rewrite lookup_insert_ne by congruence. naive_solver.
Qed.

Lemma consistent_keep (o p : Order.t) :
  Order.is_closed o = false ->
  orders !! Order.uuid o = Some p -> Order.is_closed p = false -> key p = key o ->
  consistent_on key (<[ Order.uuid o := o ]> orders) d.
Proof.
  intros Hopen Hp Hpopen Hkey k u. rewrite (Hc k u).
  destruct (decide (u = Order.uuid o)) as [-> | Hne].
  - rewrite lookup_insert_eq, Hp. split.
    + intros (p' & [= <-] & <- & _). exists o. repeat split; auto.
    + intros (o' & [= <-] & <- & _). exists p. repeat split; auto.
  - rewrite lookup_insert_ne by congruence. reflexivity.
Qed.

Lemma consistent_discard (o : Order.t) :
  Order.is_closed o = true ->
  (forall p, orders !! Order.uuid o = Some p -> key p = key o) ->
  consistent_on key (<[ Order.uuid o := o ]> orders)
    (set_discard (key o) (Order.uuid o) d).
Proof.
  intros Hclosed Hkey k u. rewrite set_discard_elem, (Hc k u).
  destruct (decide (u = Order.uuid o)) as [-> | Hne].
  - rewrite lookup_insert_eq. split.
    + intros [(p & Hp & <- & _) Hn]. exfalso. apply Hn. split; [| reflexivity].
      apply Hkey, Hp.
    + intros (o' & [= <-] & _ & Ho). congruence.
  - rewrite lookup_insert_ne by congruence. naive_solver.
Qed.

Lemma consistent_evict (old : Order.t -> bool) (orders' : gmap string Order.t) :
  (forall u, orders' !! u =
             match orders !! u with
             | Some o => if old o then None else Some o
             | None => None
             end) ->
  (forall u o, orders !! u = Some o -> old o = true -> Order.is_closed o = true) ->
  consistent_on key orders' d.
Proof.
  intros Hev Hold k u. rewrite (Hc k u), Hev. split.
  - intros (o & Ho & Hk & Hopen). exists o. rewrite Ho.
    destruct (old o) eqn:E; [| auto].
    rewrite (Hold u o Ho E) in Hopen. discriminate.
  - intros (o & Ho & Hk & Hopen). exists o.
    destruct (orders !! u) as [o' |]; [| discriminate].
    destruct (old o'); [discriminate |]. injection Ho as ->. auto.
Qed.
End Consistent.

Lemma closed_has_no_successor (p o : Order.t) :
  Order.status o ∈ STATUS_TRANSITIONS (Order.status p) -> Order.is_closed p = false.
Proof.
  unfold Order.is_closed. destruct (Order.status p); simpl; intros Hin;
    try reflexivity; apply elem_of_nil in Hin; contradiction.
Qed.

Lemma order_initialized_dropped (o prev : Order.t) (c : AsyncCache) :
  _mem_orders c !! Order.uuid o = Some prev ->
  Order.status o ∉ STATUS_TRANSITIONS (Order.status prev) ->
  _order_initialized (IsOrder o) c =
    log_cache (InvalidStatusTransition (Order.id o) (Order.status prev) (Order.status o)) c.
Proof.
  intros Hp Hn. unfold _order_initialized, _check_status_transition. rewrite Hp.
  destruct (status_in _ _) eqn:E; [| reflexivity].
  apply status_in_elem in E. contradiction.
Qed.

Lemma order_initialized_committed (o : Order.t) (c : AsyncCache) :
  (forall prev, _mem_orders c !! Order.uuid o = Some prev ->
                Order.status o ∈ STATUS_TRANSITIONS (Order.status prev)) ->
  let c' := _order_initialized (IsOrder o) c in
  _mem_orders c' = <[ Order.uuid o := o ]> (_mem_orders c) /\
  _mem_open_orders c' = set_add (Order.exchange o) (Order.uuid o) (_mem_open_orders c) /\
  _mem_symbol_open_orders c' =
    set_add (Order.symbol o) (Order.uuid o) (_mem_symbol_open_orders c).
Proof.
  intros Hp. unfold _order_initialized, _check_status_transition.
  destruct (_mem_orders c !! Order.uuid o) as [prev |] eqn:E; [| repeat split].
  specialize (Hp prev eq_refl). apply status_in_elem in Hp. rewrite Hp. repeat split.
Qed.

Lemma order_update_committed_fields (o : Order.t) (c : AsyncCache) :
  (forall prev, _mem_orders c !! Order.uuid o = Some prev ->
                Order.status o ∈ STATUS_TRANSITIONS (Order.status prev)) ->
  let c' := _order_status_update (IsOrder o) c in
  _mem_orders c' = <[ Order.uuid o := o ]> (_mem_orders c) /\
  _mem_open_orders c' =
    (if Order.is_closed o
     then set_discard (Order.exchange o) (Order.uuid o) (_mem_open_orders c)
     else _mem_open_orders c) /\
  _mem_symbol_open_orders c' =
    (if Order.is_closed o
     then set_discard (Order.symbol o) (Order.uuid o) (_mem_symbol_open_orders c)
     else _mem_symbol_open_orders c).
Proof.
  intros Hp c'. subst c'. rewrite (order_update_committed o c Hp). cbv zeta.
  destruct (Order.is_closed o); repeat split.
Qed.

Lemma call_preserves_consistency (c : AsyncCache) (op : CacheCall) :
  open_sets_consistent c -> call_ok c op -> open_sets_consistent (call c op).
Proof.
  intros [He Hs] Hok. destruct op as [[o | a] | [o | a] | now]; cbn [call call_ok] in *.
  - destruct Hok as [Hopen Hv].
    destruct (_mem_orders c !! Order.uuid o) as [prev |] eqn:E.
    + destruct (decide (Order.status o ∈ STATUS_TRANSITIONS (Order.status prev)))
        as [Hin | Hout].
      * destruct (order_initialized_committed o c) as (Eo & Ee & Es).
        { intros p Hp. rewrite E in Hp. injection Hp as <-. exact Hin. }
        unfold open_sets_consistent. rewrite Eo, Ee, Es.
        split; apply consistent_add; auto; intros p Hp; apply (Hv p Hp).
      * rewrite (order_initialized_dropped o prev c E Hout). split; assumption.
    + destruct (order_initialized_committed o c) as (Eo & Ee & Es).
      { intros p Hp. rewrite E in Hp. discriminate. }
      unfold open_sets_consistent. rewrite Eo, Ee, Es.
      split; apply consistent_add; auto; intros p Hp; apply (Hv p Hp).
  - split; assumption.
  - destruct Hok as [Hv Hnew].
    destruct (_mem_orders c !! Order.uuid o) as [prev |] eqn:E.
    + destruct (decide (Order.status o ∈ STATUS_TRANSITIONS (Order.status prev)))
        as [Hin | Hout].
      * destruct (order_update_committed_fields o c) as (Eo & Ee & Es).
        { intros p Hp. rewrite E in Hp. injection Hp as <-. exact Hin. }
        unfold open_sets_consistent. rewrite Eo, Ee, Es.
        destruct (Order.is_closed o) eqn:Hcl.
        -- split; apply consistent_discard; auto; intros p Hp; apply (Hv p Hp).
        -- destruct (Hv prev E) as [Hex Hsy].
           pose proof (closed_has_no_successor prev o Hin) as Hprev.
           split; eapply consistent_keep; eauto.
      * rewrite (order_update_dropped o prev c E Hout). split; assumption.
    + destruct (order_update_committed_fields o c) as (Eo & Ee & Es).
      { intros p Hp. rewrite E in Hp. discriminate. }
      unfold open_sets_consistent. rewrite Eo, Ee, Es, (Hnew eq_refl).
      split; apply consistent_discard; auto; intros p Hp; apply (Hv p Hp).
  - split; assumption.
  - destruct (cleanup_open_sets now c) as [Ee Es].
    unfold open_sets_consistent. rewrite Ee, Es.
    split.
    + apply (consistent_evict Order.exchange (_mem_orders c) (_mem_open_orders c) He
               (fun o => Order.timestamp o <? now - _expire_time c * 1000)).
      * intros u. apply cleanup_orders.
      * intros u o Ho Hold. apply (Hok u o Ho). apply Z.ltb_lt. exact Hold.
    + apply (consistent_evict Order.symbol (_mem_orders c) (_mem_symbol_open_orders c) Hs
               (fun o => Order.timestamp o <? now - _expire_time c * 1000)).
      * intros u. apply cleanup_orders.
      * intros u o Ho Hold. apply (Hok u o Ho). apply Z.ltb_lt. exact Hold.
Qed.

Lemma new_cache_consistent (expire_time : Z) (r : Redis) :
  open_sets_consistent (new_cache expire_time r).
Proof.
  split; intros k u; simpl; rewrite lookup_total_empty, lookup_empty; split.
  - intros Hin. apply elem_of_empty in Hin. contradiction.
  - intros (o & Ho & _). discriminate.
  - intros Hin. apply elem_of_empty in Hin. contradiction.
  - intros (o & Ho & _). discriminate.
Qed.

(** C1, as amended.  After every sequence of [_order_initialized],
    [_order_status_update] and [_cleanup_expired_data] calls that follows
    the calling discipline [calls_ok], every uuid in
    [_mem_open_orders[exchange]] and in [_mem_symbol_open_orders[symbol]] is
    a key of [_mem_orders], and a uuid belongs to those sets exactly when
    its last committed order is not closed. *)
Theorem open_sets_invariant (ops : list CacheCall) (expire_time : Z) (r : Redis) :
  calls_ok (new_cache expire_time r) ops ->
  let c := run ops (new_cache expire_time r) in
  open_sets_consistent c /\
  (forall e u, u ∈ _mem_open_orders c !!! e -> is_Some (_mem_orders c !! u)) /\
  (forall s u, u ∈ _mem_symbol_open_orders c !!! s -> is_Some (_mem_orders c !! u)) /\
  (forall u o, _mem_orders c !! u = Some o ->
     (u ∈ _mem_open_orders c !!! Order.exchange o <-> Order.is_closed o = false) /\
     (u ∈ _mem_symbol_open_orders c !!! Order.symbol o <-> Order.is_closed o = false)).
Proof.
  intros Hok c.
  assert (Hc : open_sets_consistent c).
  { subst c. unfold run. generalize (new_cache_consistent expire_time r).
    revert Hok. generalize (new_cache expire_time r) as c0.
    induction ops as [| op ops IH]; intros c0 Hok Hc0; [exact Hc0 |].
    destruct Hok as [Hop Hrest]. simpl. apply IH; [exact Hrest |].
    apply call_preserves_consistency; assumption. }
  split; [exact Hc |]. destruct Hc as [He Hs]. split; [| split].
  - intros e u Hin. apply He in Hin as (o & -> & _). eauto.
  - intros s u Hin. apply Hs in Hin as (o & -> & _). eauto.
  - intros u o Ho. split.
    + rewrite (He (Order.exchange o) u). split.
      * intros (o' & Ho' & _ & Hopen). congruence.
      * intros Hopen. exists o. auto.
    + rewrite (Hs (Order.symbol o) u). split.
      * intros (o' & Ho' & _ & Hopen). congruence.
      * intros Hopen. exists o. auto.
Qed.

Lemma open_sets_invariant_witness :
  let filled :=
    Order.mk "u1" (Some "V1"%string) "BTCUSDT" ExchangeType.BYBIT OrderStatus.FILLED
      OrderSide.BUY (mkDecimal 1 (-3)) (mkDecimal 1 (-3)) Dzero 2000 true in
  let ops :=
    [OrderInitialized (IsOrder order1); OrderInitialized (IsAlgoOrder algo1);
     OrderStatusUpdate (IsOrder filled); CleanupExpiredData 4000000] in
  open_sets_consistent (run ops (new_cache 3600 empty_redis)).
Proof.
  intros filled ops.
  apply (open_sets_invariant ops 3600 empty_redis).
  split; [| split; [| split; [| split]]].
  - split; [reflexivity |]. intros p Hp. vm_compute in Hp. discriminate.
  - exact I.
  - split.
    + intros p Hp. vm_compute in Hp. injection Hp as <-. split; reflexivity.
    + intros Hp. vm_compute in Hp. discriminate.
  - intros u o Ho _.
    assert (E : _mem_orders (call (call (call (new_cache 3600 empty_redis)
                  (OrderInitialized (IsOrder order1)))
                  (OrderInitialized (IsAlgoOrder algo1)))
                  (OrderStatusUpdate (IsOrder filled))) = {[ "u1"%string := filled ]})
      by (vm_compute; reflexivity).
    rewrite E in Ho. apply lookup_singleton_Some in Ho as [_ <-]. reflexivity.
  - exact I.
Defined.

(** The claim C1 as stated fails: eviction takes a pending order out of
    [_mem_orders] and leaves its uuid in both open sets; and an update for
    a uuid the cache does not know commits a pending order without filing
    it in the open sets. *)
Lemma open_sets_invariant_counterexample :
  (let c := run [OrderInitialized (IsOrder order1); CleanupExpiredData 4000000]
              (new_cache 3600 empty_redis) in
   "u1"%string ∈ _mem_open_orders c !!! ExchangeType.BYBIT /\
   "u1"%string ∈ _mem_symbol_open_orders c !!! "BTCUSDT"%string /\
   _mem_orders c !! "u1"%string = None) /\
  (let c := run [OrderStatusUpdate (IsOrder order1)] (new_cache 3600 empty_redis) in
   _mem_orders c !! "u1"%string = Some order1 /\
   Order.is_closed order1 = false /\
   "u1"%string ∉ _mem_open_orders c !!! ExchangeType.BYBIT).
Proof.
  split; cbv zeta.
  - split; [| split]; vm_compute; reflexivity.
  - split; [| split]; [vm_compute; reflexivity | reflexivity |].
    intros Hin. vm_compute in Hin. discriminate.
Qed.

(** ** Replayed status updates *)


Lemma order_update_position_state (x : AnyOrder) (c : AsyncCache) :
  position_state (_order_status_update x c) = position_state c.
Proof.
  destruct x as [o | a]; [| reflexivity].
  unfold _order_status_update, _check_status_transition.
  destruct (_mem_orders c !! Order.uuid o) as [prev |]; simpl;
    repeat (match goal with |- context [if ?b then _ else _] => destruct b end; simpl);
    reflexivity.
Qed.



Section Replay.
Variable is_spot : string -> bool.



Lemma apply_spot_guarded (o : Order.t) (c : AsyncCache) :
  default false (_mem_closed_orders c !! Order.uuid o) = true ->
  _apply_spot_position is_spot o c = log_cache (AlreadyClosed (Order.uuid o)) c.
Proof. intros Hg. unfold _apply_spot_position. rewrite Hg. reflexivity. Qed.


(** After an application that the guard lets through, the symbol has a
    position, and the uuid is marked closed when the status is FILLED or
    CANCELED. *)
Lemma apply_spot_result (o : Order.t) (c : AsyncCache) :
  default false (_mem_closed_orders c !! Order.uuid o) = false ->
  let c' := _apply_spot_position is_spot o c in
  is_Some (_mem_spot_positions c' !! Order.symbol o) /\
  default false (_mem_closed_orders c' !! Order.uuid o) =
    status_in (Order.status o) [OrderStatus.FILLED; OrderStatus.CANCELED].
Proof.
  intros Hg. unfold _apply_spot_position, get_position. rewrite Hg.
  repeat (match goal with
          | |- context [if ?b then _ else _] => destruct b eqn:?
          | |- context [match ?x with Some _ => _ | None => _ end] => destruct x eqn:?
          end; simpl);
    rewrite ?lookup_alter_eq, ?lookup_insert_eq; simpl;
    repeat match goal with H : _ !! _ = Some _ |- _ => rewrite H end;
    simpl; auto.
Qed.





Lemma position_state_closed (c c' : AsyncCache) :
  position_state c = position_state c' -> _mem_closed_orders c = _mem_closed_orders c'.
Proof. intros E. exact (f_equal (fun t => fst (fst (fst t))) E). Qed.

End Replay.



(** ** [_cancel_order] *)

Lemma truthy_none (s : option string) : s = None -> truthy s = None.
Proof. intros ->. reflexivity. Qed.

Lemma truthy_some (s : string) : s <> ""%string -> truthy (Some s) = Some s.
Proof. destruct s; [contradiction | reflexivity]. Qed.

(** C7.  [_cancel_order]: without a venue order id for the uuid it logs one
    error and returns, making no connector call and sending no message;
    when the connector answers [success = false] it sends the order on
    [cancel_failed] and leaves the cache as it was; when the connector
    answers [success = true] it passes the order to
    [_order_status_update], which commits it when the transition table
    allows it, and sends the order on [canceling]. *)
Theorem cancel_order_cases (response : Order.t) (order_submit : OrderSubmit.t)
    (account_type : string) (e : EMS) :
  let uuid := OrderSubmit.uuid order_submit in
  let order := Order.with_uuid uuid response in
  let r := _cancel_order response order_submit account_type e in
  (get_order_id uuid (_registry e) = None ->
   fst r = Ok None /\
   _ems_log (snd r) = _ems_log e ++ [OrderIdNotFound uuid] /\
   ems_log_level (OrderIdNotFound uuid) = ERROR /\
   _connector_calls (snd r) = _connector_calls e /\
   _msgbus (snd r) = _msgbus e /\
   _cache (snd r) = _cache e) /\
  (forall order_id,
     get_order_id uuid (_registry e) = Some order_id -> order_id <> ""%string ->
     account_type ∈ _private_connectors e ->
     _connector_calls (snd r) =
       _connector_calls e ++
         [cancel_order account_type (OrderSubmit.symbol order_submit) order_id] /\
     fst r = Ok (Some order) /\
     _ems_log (snd r) = _ems_log e /\
     (Order.success response = false ->
      _msgbus (snd r) = _msgbus e ++ [("cancel_failed"%string, order)] /\
      _cache (snd r) = _cache e) /\
     (Order.success response = true ->
      _msgbus (snd r) = _msgbus e ++ [("canceling"%string, order)] /\
      _cache (snd r) = _order_status_update (IsOrder order) (_cache e) /\
      ((forall prev, _mem_orders (_cache e) !! uuid = Some prev ->
                     Order.status response ∈ STATUS_TRANSITIONS (Order.status prev)) ->
       _mem_orders (_cache (snd r)) !! uuid = Some order))).
Proof.
  intros uuid order r. split.
  - intros Hnone. subst r. unfold _cancel_order. fold uuid.
    rewrite (truthy_none _ Hnone). repeat split.
  - intros order_id Hid Hne Hconn. subst r. unfold _cancel_order. fold uuid.
    rewrite Hid, (truthy_some _ Hne). fold order.
    unfold bind, call_connector. rewrite (bool_decide_eq_true_2 _ Hconn).
    change (Order.success (Order.with_uuid uuid response))
      with (Order.success response).
    destruct (Order.success response) eqn:Hsucc; cbn -[_order_status_update].
    + repeat split; try discriminate.
      intros Hlegal. rewrite order_update_committed.
      * cbv zeta. destruct (Order.is_closed (Order.with_uuid uuid response));
          simpl; apply lookup_insert_eq.
      * exact Hlegal.
    + repeat split; discriminate.
Qed.

Lemma cancel_order_cases_witness :
  (let r := _cancel_order canceling1 cancel1 "UNIFIED_TESTNET" sample_ems in
   fst r = Ok None /\ _connector_calls (snd r) = [] /\ _msgbus (snd r) = [] /\
   _ems_log (snd r) = [OrderIdNotFound "u1"]) /\
  (let r := _cancel_order cancel_refused1 cancel1 "UNIFIED_TESTNET" ems_with_order1 in
   _msgbus (snd r) =
     _msgbus ems_with_order1 ++
       [("cancel_failed"%string, Order.with_uuid "u1" cancel_refused1)] /\
   _cache (snd r) = _cache ems_with_order1) /\
  (let r := _cancel_order canceling1 cancel1 "UNIFIED_TESTNET" ems_with_order1 in
   _msgbus (snd r) =
     _msgbus ems_with_order1 ++ [("canceling"%string, Order.with_uuid "u1" canceling1)] /\
   _mem_orders (_cache (snd r)) !! "u1"%string = Some (Order.with_uuid "u1" canceling1)).
Proof.
  split; [| split].
  - destruct (cancel_order_cases canceling1 cancel1 "UNIFIED_TESTNET" sample_ems)
      as [H _].
    destruct H as (H1 & H2 & _ & H3 & H4 & _); [reflexivity |].
    repeat split; assumption.
  - destruct (cancel_order_cases cancel_refused1 cancel1 "UNIFIED_TESTNET"
                ems_with_order1) as [_ H].
    destruct (H "V1"%string) as (_ & _ & _ & Hfail & _);
      [reflexivity | discriminate | compute_done |].
    apply Hfail. reflexivity.
  - destruct (cancel_order_cases canceling1 cancel1 "UNIFIED_TESTNET"
                ems_with_order1) as [_ H].
    destruct (H "V1"%string) as (_ & _ & _ & _ & Hok);
      [reflexivity | discriminate | compute_done |].
    destruct (Hok eq_refl) as (Hbus & _ & Hcommit). split; [exact Hbus |].
    apply Hcommit. intros prev Hprev. vm_compute in Hprev. injection Hprev as <-.
    compute_done.
Defined.

(** ** [_twap_order] *)

Section TwapFacts.
Variable get_min_order_amount : string -> BaseMarket -> M Decimal.
Variable account_type : string.

(** A refused child: the parent is committed as FAILED, one call went to
    the connector, and the round breaks the loop. *)
Lemma submit_child_refused (env : Env) (order_submit : OrderSubmit.t) (sleeps : bool)
    (l : TwapLocals) (e : EMS) :
  account_type ∈ _private_connectors e ->
  Order.success (connector_response env) = false ->
  exists e',
    submit_child account_type env order_submit sleeps l e =
      (Ok (Break, mkLocals (amount_list l) (order_id l) (elapsed_time l)
                    (AlgoOrder.with_status AlgoOrderStatus.FAILED (algo_order l))), e') /\
    _mem_algo_orders (_cache e') !! AlgoOrder.uuid (algo_order l) =
      Some (AlgoOrder.with_status AlgoOrderStatus.FAILED (algo_order l)) /\
    _connector_calls e' = _connector_calls e ++ [create_order account_type order_submit].
Proof.
  intros Hconn Hfail. unfold submit_child, _create_order, bind, call_connector.
  rewrite (bool_decide_eq_true_2 _ Hconn).
  change (Order.success (Order.with_uuid (OrderSubmit.uuid order_submit)
                           (connector_response env)))
    with (Order.success (connector_response env)).
  rewrite Hfail. cbn -[_order_status_update].
  change (Order.success (Order.with_uuid (OrderSubmit.uuid order_submit)
                           (connector_response env)))
    with (Order.success (connector_response env)).
  rewrite Hfail. cbn -[_order_status_update].
  eexists. split; [reflexivity |]. split; [| reflexivity].
  cbn. apply lookup_insert_eq.
Qed.

(** A round that breaks ends the loop: the rounds after it do not run. *)
Lemma twap_loop_break (market : BaseMarket) (min_order_amount : Decimal)
    (env : Env) (envs : list Env) (l l' : TwapLocals) (e e' : EMS) :
  amount_list l <> [] ->
  twap_round account_type market min_order_amount env l e = (Ok (Break, l'), e') ->
  twap_loop account_type market min_order_amount (env :: envs) l e = (Ok (Some l'), e').
Proof.
  intros Hne Hround. destruct l as [amounts oid el algo]. simpl in Hne.
  destruct amounts as [| a amounts]; [contradiction |].
  cbn [twap_loop amount_list]. unfold bind at 1. rewrite Hround. reflexivity.
Qed.

Lemma submit_child_uuid (env : Env) (order_submit : OrderSubmit.t) (sleeps : bool)
    (l l' : TwapLocals) (f : Flow) (e e' : EMS) :
  submit_child account_type env order_submit sleeps l e = (Ok (f, l'), e') ->
  AlgoOrder.uuid (algo_order l') = AlgoOrder.uuid (algo_order l).
Proof.
  unfold submit_child, _create_order, bind, call_connector, with_cache, log_ems, ret,
    send, registry_register.
  intros Hr.
  repeat match type of Hr with
         | context [if ?b then _ else _] => destruct b
         end;
    try discriminate; injection Hr as _ <- _; reflexivity.
Qed.

Lemma twap_round_uuid (market : BaseMarket) (min_order_amount : Decimal) (env : Env)
    (l l' : TwapLocals) (f : Flow) (e e' : EMS) :
  twap_round account_type market min_order_amount env l e = (Ok (f, l'), e') ->
  AlgoOrder.uuid (algo_order l') = AlgoOrder.uuid (algo_order l).
Proof.
  unfold twap_round. intros Hr. destruct (order_id l) as [oid |].
  - unfold bind at 1 in Hr. unfold read_cache in Hr.
    destruct (get_order oid (_cache e)) as [[[o | a] |] c1].
    + destruct (Order.is_opened o && negb (Order.on_flight o)).
      * unfold bind in Hr.
        destruct (_cancel_order _ _ _ _) as [[r |] e1]; [| discriminate].
        unfold log_ems, ret in Hr. injection Hr as _ <- _. reflexivity.
      * destruct (Order.is_closed o).
        -- destruct (Dltb min_order_amount (Order.remaining o)).
           ++ apply submit_child_uuid in Hr. exact Hr.
           ++ cbn [amount_list] in Hr. destruct (add_to_last _ _);
                unfold ret in Hr; injection Hr as _ <- _; reflexivity.
        -- unfold ret in Hr. injection Hr as _ <- _. reflexivity.
    + discriminate.
    + unfold ret in Hr. injection Hr as _ <- _. reflexivity.
  - unfold bind at 1 in Hr.
    destruct (_cal_limit_order_price _ _ _ e) as [[price |] e1]; [| discriminate].
    destruct (last (amount_list l)) as [amount |]; [| discriminate].
    cbn [amount_list] in Hr.
    destruct (removelast (amount_list l)); apply submit_child_uuid in Hr; exact Hr.
Qed.

Lemma twap_loop_uuid (market : BaseMarket) (min_order_amount : Decimal)
    (envs : list Env) (l l' : TwapLocals) (e e' : EMS) :
  twap_loop account_type market min_order_amount envs l e = (Ok (Some l'), e') ->
  AlgoOrder.uuid (algo_order l') = AlgoOrder.uuid (algo_order l).
Proof.
  revert l e. induction envs as [| env envs IH]; intros l e Hl.
  - destruct l as [[| a amounts] oid el algo]; cbn in Hl.
    + injection Hl as <- _. reflexivity.
    + discriminate.
  - destruct l as [[| a amounts] oid el algo].
    + cbn in Hl. injection Hl as <- _. reflexivity.
    + cbn [twap_loop amount_list] in Hl. unfold bind at 1 in Hl.
      destruct (twap_round _ _ _ env _ e) as [[[f l1] |] e1] eqn:Hround;
        [| discriminate].
      apply twap_round_uuid in Hround. destruct f.
      * unfold bind, with_cache in Hl. apply IH in Hl. congruence.
      * unfold ret in Hl. injection Hl as <- _. exact Hround.
Qed.

(** Every run of [_twap_order] that reaches its end leaves the parent
    FINISHED in the cache, whatever happened to its children. *)
Lemma twap_order_ends_finished (timestamp : Z) (envs : list Env)
    (order_submit : OrderSubmit.t) (e e' : EMS) :
  _twap_order get_min_order_amount account_type timestamp envs order_submit e
    = (Ok true, e') ->
  exists a, _mem_algo_orders (_cache e') !! OrderSubmit.uuid order_submit = Some a /\
            AlgoOrder.status a = AlgoOrderStatus.FINISHED.
Proof.
  unfold _twap_order. intros Hr.
  destruct (_market e !! OrderSubmit.symbol order_submit) as [market |]; [| discriminate].
  unfold bind at 1 2 3 4 5 in Hr. unfold with_cache at 1, log_ems at 1 in Hr.
  destruct (get_min_order_amount _ market _) as [[min_order_amount |] e1];
    [| discriminate].
  destruct (_calculate_twap_orders _ _ _ _ _ _) as [sliced |]; [| discriminate].
  unfold log_ems at 1 in Hr. unfold bind at 1 in Hr.
  destruct (twap_loop _ _ _ _ _ _) as [[[l |] |] e2] eqn:Hloop; try discriminate.
  apply twap_loop_uuid in Hloop. cbn [algo_order AlgoOrder.uuid] in Hloop.
  unfold bind, with_cache, log_ems, ret in Hr. injection Hr as <-.
  exists (AlgoOrder.with_status AlgoOrderStatus.FINISHED (algo_order l)).
  split; [| reflexivity]. cbn. rewrite <- Hloop. apply lookup_insert_eq.
Qed.
End TwapFacts.

(** C3, on the code.  A TWAP whose first child is refused by the venue
    ([success = false]): the loop exits after that one submission, the
    parent is committed as FAILED and then, after the loop, as FINISHED,
    which is the status the cache keeps. *)
Theorem twap_refused_child_ends_finished :
  let r := _twap_order Okx_get_min_order_amount "UNIFIED_TESTNET" 5000
             [refusing_round; refusing_round] twap1 sample_ems in
  fst r = Ok true /\
  _connector_calls (snd r) =
    [create_order "UNIFIED_TESTNET"
       (OrderSubmit.mk "BTCUSDT" SubmitType.CREATE "c1" OrderSide.BUY OrderType.LIMIT
          (mkDecimal 10 (-3)) (Some (mkDecimal 650001 (-1))) 0%Q 0%Q ExchangeType.BYBIT)] /\
  _msgbus (snd r) = [("failed"%string, Order.with_uuid "c1" refused_child)] /\
  (exists before,
     _ems_log (snd r) =
       before ++ [TwapOrderFailed "BTCUSDT" OrderSide.BUY;
                  TwapOrderFinished "BTCUSDT" OrderSide.BUY]) /\
  AlgoOrder.status <$> (_mem_algo_orders (_cache (snd r)) !! "ALGO-1"%string)
    = Some AlgoOrderStatus.FINISHED.
Proof.
  vm_compute. repeat split. eexists [_; _]. reflexivity.
Qed.

(** ** The venues' minimum order amount *)

Lemma Dto_int_ge_1 (p : Decimal) : Dleb (mkDecimal 1 0) p = true -> 1 <= Dto_int p.
Proof.
  unfold Dleb, Dltb, Dcompare, Dalign, Dto_int.
  destruct p as [c e]. cbn [coefficient exponent].
  destruct (Z.leb_spec 0 e) as [He | He].
  - rewrite Z.min_r by lia. rewrite Z.sub_0_r. change (0 - 0) with 0.
    change (1 * 10 ^ 0) with 1.
    destruct (c * 10 ^ e ?= 1) eqn:Hc; intros Hle; try discriminate.
    + apply Z.compare_eq_iff in Hc. lia.
    + apply Z.compare_gt_iff in Hc. lia.
  - rewrite Z.min_l by lia. rewrite Z.sub_diag. change (10 ^ 0) with 1.
    rewrite Z.mul_1_r, Z.mul_1_l, Z.sub_0_l.
    assert (Hp : 0 < 10 ^ (- e)) by (apply Z.pow_pos_nonneg; lia).
    destruct (c ?= 10 ^ (- e)) eqn:Hc; intros Hle; try discriminate.
    + apply Z.compare_eq_iff in Hc. rewrite Hc, Z.quot_same by lia. lia.
    + apply Z.compare_gt_iff in Hc.
      rewrite Z.quot_div_nonneg by lia. apply Z.div_le_lower_bound; lia.
Qed.

Lemma lot_step_pos (p : Decimal) : (0 < lot_step p)%Q.
Proof.
  unfold lot_step. destruct (Dleb (mkDecimal 1 0) p) eqn:E.
  - apply Dto_int_ge_1 in E. change 0%Q with (inject_Z 0). rewrite <- Zlt_Qlt. lia.
  - apply pow10_pos.
Qed.







(** * Further properties *)

(** ** The precision engine on the grid of steps *)

Lemma Qfloor_unique (x : Q) (n : Z) :
  (inject_Z n <= x)%Q -> (x < inject_Z n + 1)%Q -> Qfloor x = n.
Proof.
  intros Hl Hu. pose proof (Qfloor_le x) as Fl. pose proof (Qlt_floor x) as Fu.
  rewrite inject_Z_plus in Fu. change (inject_Z 1) with 1%Q in Fu.
  assert (A : (inject_Z (Qfloor x) < inject_Z (n + 1))%Q)
    by (rewrite inject_Z_plus; change (inject_Z 1) with 1%Q; lra).
  assert (B : (inject_Z n < inject_Z (Qfloor x + 1))%Q)
    by (rewrite inject_Z_plus; change (inject_Z 1) with 1%Q; lra).
  rewrite <- Zlt_Qlt in A, B. lia.
Qed.

Lemma Qceiling_unique (x : Q) (n : Z) :
  (inject_Z n - 1 < x)%Q -> (x <= inject_Z n)%Q -> Qceiling x = n.
Proof.
  intros Hl Hu. unfold Qceiling.
  rewrite (Qfloor_unique (- x) (- n)); [lia | |]; rewrite inject_Z_opp; lra.
Qed.


Lemma round_to_integral_comp (r : Rounding) (y y' : Q) :
  (y == y')%Q -> round_to_integral r y = round_to_integral r y'.
Proof.
  intros E. destruct r; cbn [round_to_integral].
  - assert (Eb : Qle_bool 0 y = Qle_bool 0 y').
    { destruct (Qle_bool 0 y) eqn:A; destruct (Qle_bool 0 y') eqn:B; try reflexivity.
      - apply Qle_bool_iff in A. rewrite E in A. apply Qle_bool_iff in A. congruence.
      - apply Qle_bool_iff in B. rewrite <- E in B. apply Qle_bool_iff in B. congruence. }
    rewrite Eb. destruct (Qle_bool 0 y').
    + apply Qfloor_comp. rewrite E. reflexivity.
    + apply Qceiling_comp. rewrite E. reflexivity.
  - apply Qceiling_comp. exact E.
  - apply Qfloor_comp. exact E.
Qed.

Lemma round_to_integral_integer (r : Rounding) (k : Z) :
  round_to_integral r (inject_Z k) = k.
Proof.
  destruct r; cbn [round_to_integral].
  - destruct (Qle_bool 0 (inject_Z k)).
    + apply Qfloor_unique; lra.
    + apply Qceiling_unique; lra.
  - apply Qceiling_Z.
  - apply Qfloor_Z.
Qed.

Lemma round_to_integral_monotone (r : Rounding) (y y' : Q) :
  (y <= y')%Q -> round_to_integral r y <= round_to_integral r y'.
Proof.
  intros Hle. destruct r; cbn [round_to_integral].
  - destruct (Qle_bool 0 y) eqn:A; destruct (Qle_bool 0 y') eqn:B.
    + apply Qfloor_resp_le. lra.
    + apply Qle_bool_iff in A. apply not_true_iff_false in B.
      exfalso. apply B. apply Qle_bool_iff. lra.
    + apply not_true_iff_false in A. rewrite Qle_bool_iff in A.
      apply Qle_bool_iff in B.
      transitivity 0.
      * change 0 with (Qceiling 0). apply Qceiling_resp_le. lra.
      * change 0 with (Qfloor 0). apply Qfloor_resp_le. lra.
    + apply Qceiling_resp_le. lra.
  - apply Qceiling_resp_le. exact Hle.
  - apply Qfloor_resp_le. exact Hle.
Qed.

(** [to_precision] rounds the amount counted in steps and scales back. *)
Lemma to_precision_scaled (p : Decimal) (x : Q) (m : Mode) :
  to_precision p x m =
    (if Dleb (mkDecimal 1 0) p
     then mkDecimal (round_to_integral (rounding_of m) (x / lot_step p / 1)
                     * Dto_int p) (0 + 0)
     else mkDecimal (round_to_integral (rounding_of m) (x / (1 * 1) / lot_step p) * 1)
                    (exponent p + 0)) /\
  exists y, (y * lot_step p == x)%Q /\
            (Dval (to_precision p x m)
               == inject_Z (round_to_integral (rounding_of m) y) * lot_step p)%Q.
Proof.
  pose proof (lot_step_pos p) as Hpos. revert Hpos.
  unfold to_precision, lot_step.
  destruct (Dleb (mkDecimal 1 0) p) eqn:E; intros Hpos.
  - assert (Ed : (Dval (mkDecimal (Dto_int p) 0) == inject_Z (Dto_int p))%Q)
      by (unfold Dval; cbn [coefficient exponent]; change ((10 # 1) ^ 0)%Q with 1%Q; ring).
    split.
    + destruct m; unfold quantize, Dmul; cbn [coefficient exponent rounding_of];
        f_equal; f_equal; apply round_to_integral_comp;
        change ((10 # 1) ^ 0)%Q with 1%Q; rewrite Ed; reflexivity.
    + exists (x / inject_Z (Dto_int p) / 1)%Q. split; [field; lra |].
      destruct m; unfold quantize, Dmul, Dval at 1; cbn [coefficient exponent rounding_of];
        change ((10 # 1) ^ (0 + 0))%Q with 1%Q; change ((10 # 1) ^ 0)%Q with 1%Q;
        rewrite inject_Z_mult;
        rewrite (round_to_integral_comp _ (x / Dval (mkDecimal (Dto_int p) 0) / 1)
                   (x / inject_Z (Dto_int p) / 1)) by (rewrite Ed; reflexivity);
        ring.
  - assert (Ed : (Dval (mkDecimal 1 0) == 1 * 1)%Q) by reflexivity.
    split.
    + destruct m; unfold quantize, Dmul; cbn [coefficient exponent rounding_of];
        f_equal; f_equal; apply round_to_integral_comp; rewrite Ed; reflexivity.
    + exists (x / (1 * 1) / (10 # 1) ^ exponent p)%Q. split; [field; lra |].
      destruct m; unfold quantize, Dmul, Dval at 1; cbn [coefficient exponent rounding_of];
        rewrite Z.mul_1_r, Z.add_0_r;
        rewrite (round_to_integral_comp _ (x / Dval (mkDecimal 1 0) / (10 # 1) ^ exponent p)
                   (x / (1 * 1) / (10 # 1) ^ exponent p)) by (rewrite Ed; reflexivity);
        reflexivity.
Qed.

(** The value of a rounded amount: the amount counted in steps, rounded to
    an integer, times the step. *)
Lemma to_precision_value (p : Decimal) (x : Q) (m : Mode) :
  (Dval (to_precision p x m)
     == inject_Z (round_to_integral (rounding_of m) (x / lot_step p)) * lot_step p)%Q.
Proof.
  destruct (to_precision_scaled p x m) as [_ (y & Ey & Ev)].
  pose proof (lot_step_pos p) as Hpos.
  rewrite Ev.
  rewrite (round_to_integral_comp _ y (x / lot_step p)); [reflexivity |].
  rewrite <- Ey. field. lra.
Qed.

Lemma scale_by_step (a b s : Q) : (0 < s)%Q -> (a <= b)%Q -> (a * s <= b * s)%Q.
Proof. intros Hs Hab. apply Qmult_le_compat_r; lra. Qed.



(** X2.  Rounding is idempotent: an amount that [_amount_to_precision] or
    [_price_to_precision] returned is returned unchanged by a second pass
    at the same precision, in whatever mode. *)
Theorem to_precision_idempotent (p : Decimal) (x : Q) (m m' : Mode) :
  to_precision p (Dval (to_precision p x m)) m' = to_precision p x m.
Proof.
  pose proof (lot_step_pos p) as Hpos.
  pose proof (to_precision_value p x m) as Ev.
  destruct (to_precision_scaled p (Dval (to_precision p x m)) m') as [E' _].
  destruct (to_precision_scaled p x m) as [E _].
  set (n := round_to_integral (rounding_of m) (x / lot_step p)) in *.
  assert (Hn : forall z, (z == Dval (to_precision p x m) / lot_step p)%Q ->
                         round_to_integral (rounding_of m') z = n).
  { intros z Ez. rewrite (round_to_integral_comp _ z (inject_Z n)).
    - apply round_to_integral_integer.
    - rewrite Ez, Ev. field. lra. }
  assert (Hm : forall z, (z == x / lot_step p)%Q ->
                         round_to_integral (rounding_of m) z = n).
  { intros z Ez. apply round_to_integral_comp. exact Ez. }
  rewrite E'. rewrite E at 3.
  destruct (Dleb (mkDecimal 1 0) p).
  - rewrite (Hn (Dval (to_precision p x m) / lot_step p / 1)%Q) by (field; lra).
    rewrite (Hm (x / lot_step p / 1)%Q) by (field; lra). reflexivity.
  - rewrite (Hn (Dval (to_precision p x m) / (1 * 1) / lot_step p)%Q) by (field; lra).
    rewrite (Hm (x / (1 * 1) / lot_step p)%Q) by (field; lra). reflexivity.
Qed.

(** X3.  Rounding is monotone: a larger amount never rounds to a smaller
    one, in every mode. *)
Theorem to_precision_monotone (p : Decimal) (x x' : Q) (m : Mode) :
  (x <= x')%Q -> (Dval (to_precision p x m) <= Dval (to_precision p x' m))%Q.
Proof.
  intros Hle. pose proof (lot_step_pos p) as Hpos.
  rewrite !to_precision_value. apply scale_by_step; [exact Hpos |].
  rewrite <- Zle_Qle. apply round_to_integral_monotone.
  apply Qmult_le_compat_r; [exact Hle |]. apply Qlt_le_weak, Qinv_lt_0_compat, Hpos.
Qed.

Lemma to_precision_monotone_witness :
  (Dval (to_precision (mkDecimal 1 (-3)) (14 # 10000) round)
     <= Dval (to_precision (mkDecimal 1 (-3)) (15 # 10000) round))%Q.
Proof.
  apply (to_precision_monotone (mkDecimal 1 (-3)) (14 # 10000) (15 # 10000) round).
  vm_compute. discriminate.
Defined.


(** ** The limit price of a TWAP child *)



(** ** Slices and the venues' minimum *)







(** ** Creating and cancelling orders *)

(** What [_create_order] does around the cache: the state after it is the
    state before it with the cache replaced, one call and one message
    appended, and the registry updated on success. *)
Lemma create_order_steps (response : Order.t) (order_submit : OrderSubmit.t)
    (account_type : string) (e : EMS) :
  account_type ∈ _private_connectors e ->
  let order := Order.with_uuid (OrderSubmit.uuid order_submit) response in
  _create_order response order_submit account_type e =
    (Ok order,
     mkEMS (_market e)
       (if Order.success response
        then _order_initialized (IsOrder order) (_cache e)
        else _order_status_update (IsOrder order) (_cache e))
       (_msgbus e ++
          [(if Order.success response then "pending"%string else "failed"%string, order)])
       (if Order.success response
        then register_order order (_registry e) else _registry e)
       (_private_connectors e)
       (_connector_calls e ++ [create_order account_type order_submit])
       (_ems_log e)).
Proof.
  intros Hconn order. subst order.
  unfold _create_order, bind, call_connector. rewrite (bool_decide_eq_true_2 _ Hconn).
  change (Order.success (Order.with_uuid (OrderSubmit.uuid order_submit) response))
    with (Order.success response).
  destruct (Order.success response); reflexivity.
Qed.

Lemma create_order_accepted (response : Order.t) (order_submit : OrderSubmit.t)
    (account_type venue_id : string) (e : EMS) :
  account_type ∈ _private_connectors e ->
  Order.success response = true ->
  Order.id response = Some venue_id ->
  let uuid := OrderSubmit.uuid order_submit in
  let order := Order.with_uuid uuid response in
  let r := _create_order response order_submit account_type e in
  fst r = Ok order /\
  _uuid_to_order_id (_registry (snd r)) !! uuid = Some venue_id /\
  _order_id_to_uuid (_registry (snd r)) !! venue_id = Some uuid /\
  _msgbus (snd r) = _msgbus e ++ [("pending"%string, order)] /\
  _connector_calls (snd r) = _connector_calls e ++ [create_order account_type order_submit] /\
  (_mem_orders (_cache e) !! uuid = None ->
   _mem_orders (_cache (snd r)) !! uuid = Some order /\
   uuid ∈ _mem_open_orders (_cache (snd r)) !!! Order.exchange response /\
   uuid ∈ _mem_symbol_open_orders (_cache (snd r)) !!! Order.symbol response /\
   uuid ∈ _mem_symbol_orders (_cache (snd r)) !!! Order.symbol response) /\
  (forall prev,
     _mem_orders (_cache e) !! uuid = Some prev ->
     Order.status response ∉ STATUS_TRANSITIONS (Order.status prev) ->
     order_maps (_cache (snd r)) = order_maps (_cache e)).
Proof.
  intros Hconn Hsucc Hid uuid order r. subst r.
  rewrite (create_order_steps response order_submit account_type e Hconn).
  rewrite Hsucc. cbn [fst snd _registry _msgbus _connector_calls _cache].
  fold uuid. fold order.
  assert (Hreg : register_order order (_registry e) =
                 mkRegistry (<[ uuid := venue_id ]> (_uuid_to_order_id (_registry e)))
                            (<[ venue_id := uuid ]> (_order_id_to_uuid (_registry e)))).
  { unfold register_order. subst order. cbn. rewrite Hid. reflexivity. }
  rewrite Hreg. cbn [_uuid_to_order_id _order_id_to_uuid].
  rewrite !lookup_insert_eq.
  split; [reflexivity |]. split; [reflexivity |]. split; [reflexivity |].
  split; [reflexivity |]. split; [reflexivity |]. split.
  - intros Hfresh.
    unfold _order_initialized, _check_status_transition.
    change (Order.uuid order) with uuid. rewrite Hfresh. cbn.
    rewrite lookup_insert_eq. split; [reflexivity |].
    repeat split; apply set_add_elem; left; split; reflexivity.
  - intros prev Hprev Hbad.
    rewrite (order_initialized_dropped order prev (_cache e)); [reflexivity | exact Hprev |].
    exact Hbad.
Qed.

(** X7.  A successful [_create_order] for a uuid the cache does not hold:
    the registry maps the uuid and the venue id to each other, the order
    is stored and filed in the open set of its exchange and in both symbol
    sets, and exactly one message goes out, on [pending].  When the cache
    already holds the uuid with a status that does not allow the new one,
    the cache keeps its order maps, but the registry is still updated and
    [pending] is still sent. *)
Theorem create_order_success (response : Order.t) (order_submit : OrderSubmit.t)
    (account_type venue_id : string) (e : EMS) :
  account_type ∈ _private_connectors e ->
  Order.success response = true ->
  Order.id response = Some venue_id ->
  let uuid := OrderSubmit.uuid order_submit in
  let order := Order.with_uuid uuid response in
  let r := _create_order response order_submit account_type e in
  fst r = Ok order /\
  _uuid_to_order_id (_registry (snd r)) !! uuid = Some venue_id /\
  _order_id_to_uuid (_registry (snd r)) !! venue_id = Some uuid /\
  _msgbus (snd r) = _msgbus e ++ [("pending"%string, order)] /\
  _connector_calls (snd r) = _connector_calls e ++ [create_order account_type order_submit] /\
  (_mem_orders (_cache e) !! uuid = None ->
   _mem_orders (_cache (snd r)) !! uuid = Some order /\
   uuid ∈ _mem_open_orders (_cache (snd r)) !!! Order.exchange response /\
   uuid ∈ _mem_symbol_open_orders (_cache (snd r)) !!! Order.symbol response /\
   uuid ∈ _mem_symbol_orders (_cache (snd r)) !!! Order.symbol response) /\
  (forall prev,
     _mem_orders (_cache e) !! uuid = Some prev ->
     Order.status response ∉ STATUS_TRANSITIONS (Order.status prev) ->
     order_maps (_cache (snd r)) = order_maps (_cache e)).
Proof. exact (create_order_accepted response order_submit account_type venue_id e). Qed.

Lemma create_order_success_witness :
  let r := _create_order order1 submit1 "UNIFIED_TESTNET" sample_ems in
  _uuid_to_order_id (_registry (snd r)) !! "u1"%string = Some "V1"%string /\
  _msgbus (snd r) = [("pending"%string, order1)] /\
  _mem_orders (_cache (snd r)) !! "u1"%string = Some order1.
Proof.
  destruct (create_order_success order1 submit1 "UNIFIED_TESTNET" "V1" sample_ems)
    as (_ & Hreg & _ & Hbus & _ & Hfresh & _).
  - compute_done.
  - reflexivity.
  - reflexivity.
  - split; [exact Hreg |]. split; [exact Hbus |].
    destruct Hfresh as [Ho _]; [reflexivity | exact Ho].
Defined.

(** X8.  Create, then cancel.  After a successful [_create_order] that
    returned the venue id [venue_id], [_cancel_order] for the same uuid
    reaches the connector with that id.  When the venue accepts the cancel
    and reports CANCELING for an order created PENDING, the cache holds the
    CANCELING order, the uuid stays in the open set of its exchange, and
    the two messages sent are [pending] and [canceling]. *)
Theorem create_then_cancel (created canceled : Order.t)
    (order_submit cancel_submit : OrderSubmit.t) (account_type venue_id : string)
    (e : EMS) :
  account_type ∈ _private_connectors e ->
  Order.success created = true -> Order.id created = Some venue_id ->
  venue_id <> ""%string ->
  OrderSubmit.uuid cancel_submit = OrderSubmit.uuid order_submit ->
  _mem_orders (_cache e) !! OrderSubmit.uuid order_submit = None ->
  let uuid := OrderSubmit.uuid order_submit in
  let e1 := snd (_create_order created order_submit account_type e) in
  let r := _cancel_order canceled cancel_submit account_type e1 in
  _connector_calls (snd r) =
    _connector_calls e ++
      [create_order account_type order_submit;
       cancel_order account_type (OrderSubmit.symbol cancel_submit) venue_id] /\
  (Order.success canceled = true ->
   Order.status created = OrderStatus.PENDING ->
   Order.status canceled = OrderStatus.CANCELING ->
   _mem_orders (_cache (snd r)) !! uuid = Some (Order.with_uuid uuid canceled) /\
   uuid ∈ _mem_open_orders (_cache (snd r)) !!! Order.exchange created /\
   _msgbus (snd r) =
     _msgbus e ++ [("pending"%string, Order.with_uuid uuid created);
                   ("canceling"%string, Order.with_uuid uuid canceled)]).
Proof.
  intros Hconn Hsucc Hid Hne Huuid Hfresh uuid e1 r.
  destruct (create_order_accepted created order_submit account_type venue_id e
              Hconn Hsucc Hid) as (_ & Hreg & _ & Hbus & Hcalls & Hnew & _).
  fold uuid in Hreg, Hbus, Hnew, Hfresh. fold e1 in Hreg, Hbus, Hcalls, Hnew.
  destruct (Hnew Hfresh) as (Hstored & Hopen & _).
  assert (Hconn1 : account_type ∈ _private_connectors e1).
  { subst e1. rewrite (create_order_steps created order_submit account_type e Hconn).
    exact Hconn. }
  assert (Hshape :
    r = (Ok (Some (Order.with_uuid uuid canceled)),
         mkEMS (_market e1)
           (if Order.success canceled
            then _order_status_update (IsOrder (Order.with_uuid uuid canceled)) (_cache e1)
            else _cache e1)
           (_msgbus e1 ++
              [(if Order.success canceled
                then "canceling"%string else "cancel_failed"%string,
                Order.with_uuid uuid canceled)])
           (_registry e1) (_private_connectors e1)
           (_connector_calls e1 ++
              [cancel_order account_type (OrderSubmit.symbol cancel_submit) venue_id])
           (_ems_log e1))).
  { subst r. unfold _cancel_order. rewrite Huuid. fold uuid.
    unfold get_order_id. rewrite Hreg, (truthy_some _ Hne).
    unfold bind, call_connector. rewrite (bool_decide_eq_true_2 _ Hconn1).
    change (Order.success (Order.with_uuid uuid canceled)) with (Order.success canceled).
    destruct (Order.success canceled); reflexivity. }
  rewrite Hshape. cbn [snd _connector_calls _cache _msgbus]. split.
  - rewrite Hcalls, <- app_assoc. reflexivity.
  - intros Hok Hpending Hcanceling. rewrite Hok.
    assert (Hlegal : forall prev,
              _mem_orders (_cache e1) !! Order.uuid (Order.with_uuid uuid canceled)
                = Some prev ->
              Order.status (Order.with_uuid uuid canceled)
                ∈ STATUS_TRANSITIONS (Order.status prev)).
    { intros prev Hprev. change (Order.uuid (Order.with_uuid uuid canceled)) with uuid in Hprev.
      rewrite Hstored in Hprev. injection Hprev as <-.
      change (Order.status (Order.with_uuid uuid canceled)) with (Order.status canceled).
      change (Order.status (Order.with_uuid uuid created)) with (Order.status created).
      rewrite Hpending, Hcanceling. compute_done. }
    destruct (order_update_committed_fields _ _ Hlegal) as (Eo & Ee & _).
    assert (Hnotclosed : Order.is_closed (Order.with_uuid uuid canceled) = false).
    { unfold Order.is_closed.
      change (Order.status (Order.with_uuid uuid canceled)) with (Order.status canceled).
      rewrite Hcanceling. reflexivity. }
    rewrite Hnotclosed in Ee. rewrite Eo, Ee, Hbus, <- app_assoc.
    change (Order.uuid (Order.with_uuid uuid canceled)) with uuid.
    rewrite lookup_insert_eq. repeat split. exact Hopen.
Qed.

Lemma create_then_cancel_witness :
  let e1 := snd (_create_order order1 submit1 "UNIFIED_TESTNET" sample_ems) in
  let r := _cancel_order canceling1 cancel1 "UNIFIED_TESTNET" e1 in
  _connector_calls (snd r) =
    [create_order "UNIFIED_TESTNET" submit1;
     cancel_order "UNIFIED_TESTNET" "BTCUSDT" "V1"] /\
  _mem_orders (_cache (snd r)) !! "u1"%string = Some (Order.with_uuid "u1" canceling1).
Proof.
  destruct (create_then_cancel order1 canceling1 submit1 cancel1 "UNIFIED_TESTNET" "V1"
              sample_ems) as [Hcalls Hrest].
  - compute_done.
  - reflexivity.
  - reflexivity.
  - discriminate.
  - reflexivity.
  - reflexivity.
  - split; [exact Hcalls |].
    destruct Hrest as (Hstored & _); [reflexivity | reflexivity | reflexivity |].
    exact Hstored.
Defined.

Lemma set_discard_subset {K} {HeqK : EqDecision K} {HcountK : Countable K}
    (k k' : K) (u u' : string) (d : gmap K (gset string)) :
  u' ∈ set_discard k u d !!! k' -> u' ∈ d !!! k'.
Proof. intros Hin. apply set_discard_elem in Hin as [Hin _]. exact Hin. Qed.

(** [_order_status_update] never adds a uuid to an open set. *)
Lemma order_update_open_sets_shrink (x : AnyOrder) (c : AsyncCache) :
  (forall k u, u ∈ _mem_open_orders (_order_status_update x c) !!! k ->
               u ∈ _mem_open_orders c !!! k) /\
  (forall k u, u ∈ _mem_symbol_open_orders (_order_status_update x c) !!! k ->
               u ∈ _mem_symbol_open_orders c !!! k).
Proof.
  destruct x as [o | a]; [| split; intros k u H; exact H].
  unfold _order_status_update, _check_status_transition.
  destruct (_mem_orders c !! Order.uuid o) as [prev |]; cbn;
    repeat (match goal with |- context [if ?b then _ else _] => destruct b end; cbn);
    split; intros k u H; try exact H; eapply set_discard_subset; exact H.
Qed.

(** X9.  A refused order cannot be cancelled at the venue.  When the
    connector answers [_create_order] with [success = false], the registry
    stays as it was, no open set gains a uuid and one message goes out on
    [failed]; a later [_cancel_order] for that uuid, which the registry
    does not know, logs one error and makes no connector call and sends no
    message. *)
Theorem refused_create_then_cancel (refused response : Order.t)
    (order_submit cancel_submit : OrderSubmit.t) (account_type : string) (e : EMS) :
  account_type ∈ _private_connectors e ->
  Order.success refused = false ->
  OrderSubmit.uuid cancel_submit = OrderSubmit.uuid order_submit ->
  get_order_id (OrderSubmit.uuid order_submit) (_registry e) = None ->
  let uuid := OrderSubmit.uuid order_submit in
  let e1 := snd (_create_order refused order_submit account_type e) in
  let r := _cancel_order response cancel_submit account_type e1 in
  _registry e1 = _registry e /\
  _msgbus e1 = _msgbus e ++ [("failed"%string, Order.with_uuid uuid refused)] /\
  (forall k u, u ∈ _mem_open_orders (_cache e1) !!! k ->
               u ∈ _mem_open_orders (_cache e) !!! k) /\
  (forall k u, u ∈ _mem_symbol_open_orders (_cache e1) !!! k ->
               u ∈ _mem_symbol_open_orders (_cache e) !!! k) /\
  fst r = Ok None /\
  _connector_calls (snd r) = _connector_calls e1 /\
  _msgbus (snd r) = _msgbus e1 /\
  _cache (snd r) = _cache e1 /\
  _ems_log (snd r) = _ems_log e1 ++ [OrderIdNotFound uuid].
Proof.
  intros Hconn Hfail Huuid Hunknown uuid e1 r. subst r e1.
  rewrite (create_order_steps refused order_submit account_type e Hconn).
  rewrite Hfail. cbn [snd _registry _msgbus _cache _connector_calls _ems_log]. fold uuid.
  split; [reflexivity |]. split; [reflexivity |].
  split; [apply order_update_open_sets_shrink |].
  split; [apply order_update_open_sets_shrink |].
  unfold _cancel_order. rewrite Huuid.
  cbn [_registry]. rewrite (truthy_none _ Hunknown). repeat split.
Qed.

Lemma refused_create_then_cancel_witness :
  let e1 := snd (_create_order refused_child submit1 "UNIFIED_TESTNET" sample_ems) in
  let r := _cancel_order canceling1 cancel1 "UNIFIED_TESTNET" e1 in
  fst r = Ok None /\ _connector_calls (snd r) = _connector_calls e1.
Proof.
  destruct (refused_create_then_cancel refused_child canceling1 submit1 cancel1
              "UNIFIED_TESTNET" sample_ems) as (_ & _ & _ & _ & Hres & Hcalls & _).
  - compute_done.
  - reflexivity.
  - reflexivity.
  - reflexivity.
  - split; assumption.
Defined.

(** X10.  [_create_order] and [_cancel_order] send exactly one message for
    each connector call they make, and none without a call: both lists
    only grow, by the same number of entries, at most one. *)
Theorem one_message_per_call (response : Order.t) (order_submit : OrderSubmit.t)
    (account_type : string) (e : EMS) :
  (exists msgs calls,
     let e' := snd (_create_order response order_submit account_type e) in
     _msgbus e' = _msgbus e ++ msgs /\
     _connector_calls e' = _connector_calls e ++ calls /\
     length msgs = length calls /\ (length calls <= 1)%nat) /\
  (exists msgs calls,
     let e' := snd (_cancel_order response order_submit account_type e) in
     _msgbus e' = _msgbus e ++ msgs /\
     _connector_calls e' = _connector_calls e ++ calls /\
     length msgs = length calls /\ (length calls <= 1)%nat).
Proof.
  split.
  - destruct (decide (account_type ∈ _private_connectors e)) as [Hconn | Hnone].
    + rewrite (create_order_steps response order_submit account_type e Hconn).
      eexists [_], [_]. cbn. repeat split. lia.
    + exists [], []. unfold _create_order, bind, call_connector.
      rewrite (bool_decide_eq_false_2 _ Hnone). cbn. rewrite !app_nil_r. repeat split. lia.
  - unfold _cancel_order.
    destruct (truthy (get_order_id (OrderSubmit.uuid order_submit) (_registry e)))
      as [order_id |].
    + unfold bind, call_connector.
      destruct (decide (account_type ∈ _private_connectors e)) as [Hconn | Hnone].
      * rewrite (bool_decide_eq_true_2 _ Hconn).
        destruct (Order.success (Order.with_uuid (OrderSubmit.uuid order_submit) response));
          eexists [_], [_]; cbn; repeat split; lia.
      * rewrite (bool_decide_eq_false_2 _ Hnone).
        exists [], []. cbn. rewrite !app_nil_r. repeat split. lia.
    + exists [], []. cbn. rewrite !app_nil_r. repeat split. lia.
Qed.

(** ** The venues' routing of submissions *)

Lemma build_queues_lookup (venue : AccountType -> bool) (connectors : list AccountType)
    (queues : gmap AccountType (list OrderSubmit.t)) (a : AccountType) :
  build_queues venue connectors queues !! a =
    if bool_decide (a ∈ connectors) && venue a then Some [] else queues !! a.
Proof.
  unfold build_queues. revert queues.
  induction connectors as [| x l IH]; intros queues; [reflexivity |].
  cbn [foldl]. rewrite IH.
  destruct (decide (a ∈ l)) as [Hin | Hnin].
  - rewrite (bool_decide_eq_true_2 _ Hin).
    rewrite (bool_decide_eq_true_2 (a ∈ x :: l)) by (right; exact Hin).
    cbn [andb]. destruct (venue a) eqn:Ea; [reflexivity |].
    destruct (venue x) eqn:Ex; [| reflexivity].
    rewrite lookup_insert_ne; [reflexivity | congruence].
  - rewrite (bool_decide_eq_false_2 _ Hnin). cbn [andb].
    destruct (decide (a = x)) as [-> | Hne].
    + rewrite (bool_decide_eq_true_2 (x ∈ x :: l)) by left. cbn [andb].
      destruct (venue x); [apply lookup_insert_eq | reflexivity].
    + rewrite (bool_decide_eq_false_2 (a ∈ x :: l))
        by (intros [? | ?]%elem_of_cons; tauto).
      cbn [andb]. destruct (venue x); [| reflexivity].
      rewrite lookup_insert_ne; [reflexivity | congruence].
Qed.

Lemma put_nowait_ok (account_type : option AccountType) (order : OrderSubmit.t)
    (queues queues' : gmap AccountType (list OrderSubmit.t)) :
  put_nowait account_type order queues = Ok queues' <->
  exists a queue, account_type = Some a /\ queues !! a = Some queue /\
                  queues' = <[ a := queue ++ [order] ]> queues.
Proof.
  unfold put_nowait. split.
  - destruct account_type as [a |]; [| discriminate].
    destruct (queues !! a) as [queue |] eqn:E; [| discriminate].
    intros [= <-]. exists a, queue. auto.
  - intros (a & queue & -> & E & ->). rewrite E. reflexivity.
Qed.

Lemma put_nowait_raises (account_type : option AccountType) (order : OrderSubmit.t)
    (queues : gmap AccountType (list OrderSubmit.t)) (e : PyExn) :
  put_nowait account_type order queues = Raise e -> e = KeyError.
Proof.
  unfold put_nowait. destruct account_type as [a |]; [| congruence].
  destruct (queues !! a); congruence.
Qed.

Lemma find_in_connectors (connectors priority : list AccountType) (a : AccountType) :
  List.find (fun a => bool_decide (a ∈ connectors)) priority = Some a ->
  In a priority /\ a ∈ connectors.
Proof.
  intros H. apply find_some in H as [Hin Hdec].
  split; [exact Hin | exact (bool_decide_eq_true_1 _ Hdec)].
Qed.

Lemma find_in_connectors_none (connectors priority : list AccountType) :
  List.find (fun a => bool_decide (a ∈ connectors)) priority = None <->
  forall a, In a priority -> a ∉ connectors.
Proof.
  split.
  - intros H a Hin Hc. pose proof (find_none _ _ H a Hin) as Hf. cbn in Hf.
    rewrite (bool_decide_eq_true_2 _ Hc) in Hf. discriminate.
  - intros H. destruct (List.find _ priority) as [a |] eqn:E; [| reflexivity].
    apply find_in_connectors in E as [Hin Hc]. destruct (H a Hin Hc).
Qed.

(** X11.  OKX keeps a single queue, for the first OKX account among the
    connectors, while the default account is the first of DEMO, AWS, LIVE
    that has a connector.  A submission without an account is queued
    exactly when the two agree, and raises [KeyError] otherwise; a
    submission with an account is queued exactly when the account is the
    first OKX one. *)
Theorem okx_single_queue (connectors : list AccountType) (order : OrderSubmit.t) :
  let s := Okx._build connectors in
  let first := List.find is_okx connectors in
  let default :=
    List.find (fun a => bool_decide (a ∈ connectors)) Okx.OKX_ACCOUNT_TYPE_PRIORITY in
  (forall a, Okx._order_submit_queues s !! a =
             if bool_decide (first = Some a) then Some [] else None) /\
  Okx._okx_account_type s = default /\
  (forall account_type,
     let target := match account_type with Some a => Some a | None => default end in
     match Okx._submit_order order account_type s with
     | Ok s' => exists a, target = Some a /\ first = Some a /\
                          Okx._order_submit_queues s' = {[ a := [order] ]} /\
                          Okx._okx_account_type s' = default
     | Raise e => e = KeyError /\ (target = None \/ target <> first)
     end).
Proof.
  intros s first default.
  assert (Hq : forall a, Okx._order_submit_queues s !! a =
                         if bool_decide (first = Some a) then Some [] else None).
  { intros a. subst s first. unfold Okx._build, Okx._build_order_submit_queues.
    cbn [Okx._private_connectors Okx._order_submit_queues].
    destruct (List.find is_okx connectors) as [b |] eqn:E.
    - unfold Okx._set_account_type. cbn [Okx._private_connectors].
      destruct (List.find _ Okx.OKX_ACCOUNT_TYPE_PRIORITY);
        cbn [Okx._order_submit_queues];
        (destruct (decide (b = a)) as [-> | Hne];
         [ rewrite bool_decide_eq_true_2 by reflexivity; apply lookup_insert_eq
         | rewrite bool_decide_eq_false_2 by congruence;
           rewrite lookup_insert_ne by exact Hne; apply lookup_empty ]).
    - unfold Okx._set_account_type. cbn [Okx._private_connectors].
      destruct (List.find _ Okx.OKX_ACCOUNT_TYPE_PRIORITY);
        cbn [Okx._order_submit_queues];
        rewrite bool_decide_eq_false_2 by congruence; apply lookup_empty. }
  assert (Hd : Okx._okx_account_type s = default).
  { subst s default. unfold Okx._build, Okx._build_order_submit_queues, Okx._set_account_type.
    cbn [Okx._private_connectors].
    destruct (List.find is_okx connectors);
      cbn [Okx._private_connectors Okx._okx_account_type];
      destruct (List.find _ Okx.OKX_ACCOUNT_TYPE_PRIORITY); reflexivity. }
  split; [exact Hq |]. split; [exact Hd |].
  intros account_type target. unfold Okx._submit_order. rewrite Hd. fold target.
  destruct (put_nowait target order (Okx._order_submit_queues s)) as [queues | e] eqn:E;
    cbn [py_bind].
  - apply put_nowait_ok in E as (a & queue & Ht & Hl & ->).
    rewrite Hq in Hl. destruct (decide (first = Some a)) as [Hf | Hf].
    + rewrite (bool_decide_eq_true_2 _ Hf) in Hl. injection Hl as <-.
      exists a. split; [exact Ht |]. split; [exact Hf |].
      cbn [Okx._order_submit_queues Okx._okx_account_type]. split; [| reflexivity].
      apply map_eq. intros b. destruct (decide (a = b)) as [<- | Hne].
      * rewrite lookup_insert_eq, lookup_singleton_eq. reflexivity.
      * rewrite lookup_insert_ne, lookup_singleton_ne by exact Hne.
        rewrite Hq. rewrite bool_decide_eq_false_2 by congruence. reflexivity.
    + rewrite (bool_decide_eq_false_2 _ Hf) in Hl. discriminate.
  - split; [exact (put_nowait_raises _ _ _ _ E) |].
    destruct target as [a |]; [right | left; reflexivity].
    intros Hf. unfold put_nowait in E. rewrite Hq in E.
    rewrite bool_decide_eq_true_2 in E by (symmetry; exact Hf). discriminate.
Qed.

(** X12.  Bybit keeps one queue for each Bybit account among the
    connectors and takes UNIFIED_TESTNET as the default account when it
    has a connector, UNIFIED otherwise, whether or not UNIFIED has one.  A
    submission is queued, at the tail of the queue of its account and with
    every other queue untouched, exactly when that account has a connector;
    otherwise it raises [KeyError]. *)
Theorem bybit_routing (connectors : list AccountType) (order : OrderSubmit.t) :
  let s := Bybit._build connectors in
  let default :=
    if bool_decide (Bybit.UNIFIED_TESTNET ∈ connectors)
    then Bybit.UNIFIED_TESTNET else Bybit.UNIFIED in
  (forall a, Bybit._order_submit_queues s !! a =
             if bool_decide (a ∈ connectors) && is_bybit a then Some [] else None) /\
  (forall account_type,
     let target := match account_type with Some a => a | None => default end in
     match Bybit._submit_order order account_type s with
     | Ok s' => target ∈ connectors /\ is_bybit target = true /\
                Bybit._order_submit_queues s' =
                  <[ target := [order] ]> (Bybit._order_submit_queues s) /\
                Bybit._bybit_account_type s' = Some default
     | Raise e => e = KeyError /\ (target ∉ connectors \/ is_bybit target = false)
     end) /\
  ((exists s', Bybit._submit_order order None s = Ok s') <->
   Bybit.UNIFIED_TESTNET ∈ connectors \/ Bybit.UNIFIED ∈ connectors).
Proof.
  intros s default.
  assert (Hq : forall a, Bybit._order_submit_queues s !! a =
                 if bool_decide (a ∈ connectors) && is_bybit a then Some [] else None).
  { intros a. subst s. unfold Bybit._build, Bybit._set_account_type,
      Bybit._build_order_submit_queues.
    cbn [Bybit._private_connectors Bybit._order_submit_queues].
    rewrite build_queues_lookup, lookup_empty. reflexivity. }
  assert (Hroute : forall account_type,
     let target := match account_type with Some a => a | None => default end in
     match Bybit._submit_order order account_type s with
     | Ok s' => target ∈ connectors /\ is_bybit target = true /\
                Bybit._order_submit_queues s' =
                  <[ target := [order] ]> (Bybit._order_submit_queues s) /\
                Bybit._bybit_account_type s' = Some default
     | Raise e => e = KeyError /\ (target ∉ connectors \/ is_bybit target = false)
     end).
  { intros account_type target. unfold Bybit._submit_order.
    assert (Ht : match account_type with
                 | Some a => Some a
                 | None => Bybit._bybit_account_type s
                 end = Some target) by (destruct account_type; reflexivity).
    rewrite Ht.
    destruct (put_nowait (Some target) order (Bybit._order_submit_queues s))
      as [queues | e] eqn:E; cbn [py_bind].
    - apply put_nowait_ok in E as (a & queue & [= <-] & Hl & ->).
      rewrite Hq in Hl.
      destruct (decide (target ∈ connectors)) as [Hin | Hnin].
      + rewrite (bool_decide_eq_true_2 _ Hin) in Hl. cbn [andb] in Hl.
        destruct (is_bybit target) eqn:Eb; [| discriminate]. injection Hl as <-.
        repeat split; assumption.
      + rewrite (bool_decide_eq_false_2 _ Hnin) in Hl. discriminate.
    - split; [exact (put_nowait_raises _ _ _ _ E) |].
      unfold put_nowait in E. rewrite Hq in E.
      destruct (decide (target ∈ connectors)) as [Hin | Hnin]; [| left; exact Hnin].
      rewrite (bool_decide_eq_true_2 _ Hin) in E. cbn [andb] in E.
      destruct (is_bybit target); [discriminate | right; reflexivity]. }
  split; [exact Hq |]. split; [exact Hroute |].
  specialize (Hroute None). cbn zeta in Hroute. split.
  - intros [s' E]. rewrite E in Hroute. destruct Hroute as (Hin & _).
    subst default. destruct (bool_decide (Bybit.UNIFIED_TESTNET ∈ connectors)) eqn:Et.
    + left. exact Hin.
    + right. exact Hin.
  - intros H. destruct (Bybit._submit_order order None s) as [s' | e]; [eauto |].
    destruct Hroute as (_ & [Hnin | Hb]).
    + exfalso. subst default.
      destruct (decide (Bybit.UNIFIED_TESTNET ∈ connectors)) as [Ht | Ht].
      * rewrite (bool_decide_eq_true_2 _ Ht) in Hnin. tauto.
      * rewrite (bool_decide_eq_false_2 _ Ht) in Hnin. tauto.
    + subst default. destruct (bool_decide _); discriminate.
Qed.

Lemma bybit_routing_witness :
  exists s', Bybit._submit_order submit1 None (Bybit._build [Bybit.UNIFIED]) = Ok s'.
Proof.
  destruct (bybit_routing [Bybit.UNIFIED] submit1) as (_ & _ & Hdefault).
  apply Hdefault. right. left.
Defined.

Lemma binance_queues (connectors : list AccountType) (a : AccountType) :
  Binance._order_submit_queues (Binance._build connectors) !! a =
    if bool_decide (a ∈ connectors) && is_binance a then Some [] else None.
Proof.
  unfold Binance._build, Binance._set_account_type, Binance._build_order_submit_queues.
  cbn [Binance._private_connectors Binance._order_submit_queues].
  destruct (bool_decide (Binance.PORTFOLIO_MARGIN ∈ connectors));
    cbn [Binance._order_submit_queues];
    rewrite build_queues_lookup, lookup_empty; reflexivity.
Qed.

Lemma binance_submit_default (connectors : list AccountType) (order : OrderSubmit.t)
    (instrument_id : InstrumentId) :
  let s := Binance._build connectors in
  let route := Binance._instrument_id_to_account_type instrument_id s in
  match Binance._submit_order order instrument_id None s with
  | Ok s' => exists a, route = Some a /\ a ∈ connectors /\ is_binance a = true /\
                       Binance._order_submit_queues s' =
                         <[ a := [order] ]> (Binance._order_submit_queues s)
  | Raise e => e = KeyError /\
               (route = None \/
                exists a, route = Some a /\ (a ∉ connectors \/ is_binance a = false))
  end.
Proof.
  intros s route. unfold Binance._submit_order. fold route.
  destruct (put_nowait route order (Binance._order_submit_queues s)) as [queues | e] eqn:E;
    cbn [py_bind].
  - apply put_nowait_ok in E as (a & queue & Hr & Hl & ->).
    subst s. rewrite binance_queues in Hl.
    destruct (decide (a ∈ connectors)) as [Hin | Hnin].
    + rewrite (bool_decide_eq_true_2 _ Hin) in Hl. cbn [andb] in Hl.
      destruct (is_binance a) eqn:Eb; [| discriminate]. injection Hl as <-.
      exists a. repeat split; assumption.
    + rewrite (bool_decide_eq_false_2 _ Hnin) in Hl. discriminate.
  - split; [exact (put_nowait_raises _ _ _ _ E) |].
    destruct route as [a |]; [right | left; reflexivity].
    exists a. split; [reflexivity |].
    unfold put_nowait in E. subst s. rewrite binance_queues in E.
    destruct (decide (a ∈ connectors)) as [Hin | Hnin]; [| left; exact Hnin].
    rewrite (bool_decide_eq_true_2 _ Hin) in E. cbn [andb] in E.
    destruct (is_binance a); [discriminate | right; reflexivity].
Qed.

Lemma binance_route (connectors : list AccountType) (instrument_id : InstrumentId) :
  Binance._instrument_id_to_account_type instrument_id (Binance._build connectors) =
    if bool_decide (Binance.PORTFOLIO_MARGIN ∈ connectors)
    then Some Binance.PORTFOLIO_MARGIN
    else if is_spot instrument_id
      then List.find (fun a => bool_decide (a ∈ connectors)) Binance.BINANCE_SPOT_PRIORITY
    else if is_linear instrument_id
      then Some (if bool_decide (Binance.USD_M_FUTURE_TESTNET ∈ connectors)
                 then Binance.USD_M_FUTURE_TESTNET else Binance.USD_M_FUTURE)
    else if is_inverse instrument_id
      then Some (if bool_decide (Binance.COIN_M_FUTURE_TESTNET ∈ connectors)
                 then Binance.COIN_M_FUTURE_TESTNET else Binance.COIN_M_FUTURE)
    else None.
Proof.
  unfold Binance._build, Binance._set_account_type, Binance._build_order_submit_queues,
    Binance._instrument_id_to_account_type.
  cbn [Binance._private_connectors Binance._binance_spot_account_type
       Binance._binance_linear_account_type Binance._binance_inverse_account_type
       Binance._binance_pm_account_type].
  destruct (bool_decide (Binance.PORTFOLIO_MARGIN ∈ connectors));
    cbn [Binance._binance_spot_account_type Binance._binance_linear_account_type
         Binance._binance_inverse_account_type Binance._binance_pm_account_type];
    [reflexivity |].
  destruct (is_spot instrument_id); [| reflexivity].
  destruct (List.find _ Binance.BINANCE_SPOT_PRIORITY); reflexivity.
Qed.

(** X13.  Binance keeps one queue for each Binance account among the
    connectors.  With a PORTFOLIO_MARGIN connector every submission without
    an account is queued there, whatever the instrument.  Without one, a
    spot instrument needs a connector for one of ISOLATED_MARGIN, MARGIN,
    SPOT_TESTNET, SPOT, a linear one for USD_M_FUTURE_TESTNET or
    USD_M_FUTURE, an inverse one for COIN_M_FUTURE_TESTNET or
    COIN_M_FUTURE; an instrument of no kind, and every submission whose
    account has no connector, raises [KeyError]. *)
Theorem binance_routing (connectors : list AccountType) (order : OrderSubmit.t)
    (instrument_id : InstrumentId) :
  let s := Binance._build connectors in
  let queued := exists s', Binance._submit_order order instrument_id None s = Ok s' in
  let has a := a ∈ connectors in
  (forall e, Binance._submit_order order instrument_id None s = Raise e -> e = KeyError) /\
  (forall s', Binance._submit_order order instrument_id None s = Ok s' ->
     exists a, Binance._instrument_id_to_account_type instrument_id s = Some a /\
               has a /\
               Binance._order_submit_queues s' =
                 <[ a := [order] ]> (Binance._order_submit_queues s)) /\
  (has Binance.PORTFOLIO_MARGIN ->
     queued /\
     Binance._instrument_id_to_account_type instrument_id s = Some Binance.PORTFOLIO_MARGIN) /\
  (~ has Binance.PORTFOLIO_MARGIN ->
     (is_spot instrument_id = true ->
        (queued <-> exists a, In a Binance.BINANCE_SPOT_PRIORITY /\ has a)) /\
     (is_spot instrument_id = false -> is_linear instrument_id = true ->
        (queued <-> has Binance.USD_M_FUTURE_TESTNET \/ has Binance.USD_M_FUTURE)) /\
     (is_spot instrument_id = false -> is_linear instrument_id = false ->
      is_inverse instrument_id = true ->
        (queued <-> has Binance.COIN_M_FUTURE_TESTNET \/ has Binance.COIN_M_FUTURE)) /\
     (is_spot instrument_id = false -> is_linear instrument_id = false ->
      is_inverse instrument_id = false -> ~ queued)).
Proof.
  intros s queued has.
  pose proof (binance_submit_default connectors order instrument_id) as Hsub.
  pose proof (binance_route connectors instrument_id) as Hroute.
  cbv zeta in Hsub. fold s in Hsub, Hroute.
  assert (Hiff : queued <->
            exists a, Binance._instrument_id_to_account_type instrument_id s = Some a /\
                      has a /\ is_binance a = true).
  { subst queued. split.
    - intros [s' E]. rewrite E in Hsub. destruct Hsub as (a & Hr & Hin & Hb & _). eauto.
    - intros (a & Hr & Hin & Hb).
      destruct (Binance._submit_order order instrument_id None s) as [s' | e]; [eauto |].
      destruct Hsub as (_ & [Hn | (b & Hrb & Hbad)]); [congruence |].
      assert (b = a) as -> by congruence.
      destruct Hbad as [Hbad | Hbad]; [destruct (Hbad Hin) | congruence]. }
  split; [| split; [| split]].
  - intros e E. rewrite E in Hsub. tauto.
  - intros s' E. rewrite E in Hsub. destruct Hsub as (a & Hr & Hin & _ & Hq). eauto.
  - intros Hpm. rewrite (bool_decide_eq_true_2 _ Hpm) in Hroute.
    split; [| exact Hroute]. apply Hiff. exists Binance.PORTFOLIO_MARGIN. auto.
  - intros Hpm. rewrite (bool_decide_eq_false_2 _ Hpm) in Hroute.
    split; [| split; [| split]].
    + intros Hs. rewrite Hs in Hroute. rewrite Hiff, Hroute. split.
      * intros (a & Hf & Hin & _). apply find_in_connectors in Hf as [Hp _]. eauto.
      * intros (a & Hp & Hin).
        destruct (List.find (fun a => bool_decide (a ∈ connectors))
                    Binance.BINANCE_SPOT_PRIORITY) as [b |] eqn:Ef.
        -- pose proof (find_in_connectors _ _ _ Ef) as [Hpb Hinb].
           exists b. split; [reflexivity |]. split; [exact Hinb |].
           cbn in Hpb. destruct Hpb as [<- | [<- | [<- | [<- | []]]]]; reflexivity.
        -- destruct (proj1 (find_in_connectors_none _ _) Ef a Hp Hin).
    + intros Hs Hl. rewrite Hs, Hl in Hroute. rewrite Hiff, Hroute. split.
      * intros (a & [= <-] & Hin & _).
        destruct (bool_decide (Binance.USD_M_FUTURE_TESTNET ∈ connectors)); auto.
      * intros H. eexists. split; [reflexivity |].
        destruct (decide (Binance.USD_M_FUTURE_TESTNET ∈ connectors)) as [Ht | Ht].
        -- rewrite (bool_decide_eq_true_2 _ Ht). auto.
        -- rewrite (bool_decide_eq_false_2 _ Ht). split; [tauto | reflexivity].
    + intros Hs Hl Hi. rewrite Hs, Hl, Hi in Hroute. rewrite Hiff, Hroute. split.
      * intros (a & [= <-] & Hin & _).
        destruct (bool_decide (Binance.COIN_M_FUTURE_TESTNET ∈ connectors)); auto.
      * intros H. eexists. split; [reflexivity |].
        destruct (decide (Binance.COIN_M_FUTURE_TESTNET ∈ connectors)) as [Ht | Ht].
        -- rewrite (bool_decide_eq_true_2 _ Ht). auto.
        -- rewrite (bool_decide_eq_false_2 _ Ht). split; [tauto | reflexivity].
    + intros Hs Hl Hi. rewrite Hs, Hl, Hi in Hroute. rewrite Hiff, Hroute.
      intros (a & Hf & _). discriminate.
Qed.

Lemma binance_routing_witness :
  exists s',
    Binance._submit_order submit1 (mkInstrumentId true false false) None
      (Binance._build [Binance.USD_M_FUTURE; Binance.SPOT]) = Ok s'.
Proof.
  destruct (binance_routing [Binance.USD_M_FUTURE; Binance.SPOT] submit1
              (mkInstrumentId true false false)) as (_ & _ & _ & Hplain).
  destruct Hplain as (Hspot & _).
  - intros Hpm. apply list_elem_of_In in Hpm. cbn in Hpm.
    destruct Hpm as [Hpm | [Hpm | []]]; discriminate.
  - apply Hspot; [reflexivity |].
    exists Binance.SPOT. split; [cbn; tauto | right; left].
Defined.

(** ** The symbol index of the cache *)

Lemma symbol_discard_elem (uuid : string) (l : list (string * gset string))
    (c : AsyncCache) (s u : string) :
  let c' :=
    foldl (fun c '(symbol, _) =>
             let c := log_cache (RemovingOrderFromSymbol uuid symbol) c in
             set_mem_symbol_orders (set_discard symbol uuid (_mem_symbol_orders c)) c)
          c l in
  u ∈ _mem_symbol_orders c' !!! s <->
  u ∈ _mem_symbol_orders c !!! s /\ ~ (s ∈ map fst l /\ u = uuid).
Proof.
  revert c. induction l as [| [symbol set] l IH]; intros c.
  - cbn. split; [intros H; split; [exact H | intros [H' _]; inversion H'] | tauto].
  - cbn [foldl map fst]. cbv zeta in IH |- *.
    rewrite IH. cbn [_mem_symbol_orders set_mem_symbol_orders log_cache].
    change (_mem_symbol_orders (log_cache (RemovingOrderFromSymbol uuid symbol) c))
      with (_mem_symbol_orders c).
    change (_mem_symbol_orders (set_mem_symbol_orders ?v ?c0)) with v.
    rewrite set_discard_elem, elem_of_cons. tauto.
Qed.

Lemma elem_of_lookup_total_key (d : gmap string (gset string)) (s u : string) :
  u ∈ d !!! s -> s ∈ map fst (map_to_list d).
Proof.
  rewrite lookup_total_alt. destruct (d !! s) as [set |] eqn:E.
  - intros _. apply list_elem_of_In, in_map_iff. exists (s, set).
    split; [reflexivity |]. apply list_elem_of_In, elem_of_map_to_list. exact E.
  - cbn. set_solver.
Qed.

Lemma remove_expired_order_symbols (c : AsyncCache) (uuid s u : string) :
  u ∈ _mem_symbol_orders (remove_expired_order c uuid) !!! s <->
  u ∈ _mem_symbol_orders c !!! s /\ u <> uuid.
Proof.
  unfold remove_expired_order. cbv zeta.
  match goal with
  | |- context [foldl ?f ?c0 ?l] => pose proof (symbol_discard_elem uuid l c0 s u) as H
  end.
  cbv zeta in H. rewrite H. clear H.
  change (_mem_symbol_orders (log_cache ?x ?c0)) with (_mem_symbol_orders c0).
  change (_mem_symbol_orders (set_mem_closed_orders ?v ?c0)) with (_mem_symbol_orders c0).
  change (_mem_symbol_orders (set_mem_orders ?v ?c0)) with (_mem_symbol_orders c0).
  split.
  - intros [Hin Hn]. split; [exact Hin |]. intros ->. apply Hn.
    split; [| reflexivity]. exact (elem_of_lookup_total_key _ _ _ Hin).
  - intros [Hin Hn]. split; [exact Hin |]. intros [_ Heq]. exact (Hn Heq).
Qed.

Lemma remove_expired_orders_symbols (uuids : list string) (c : AsyncCache) (s u : string) :
  u ∈ _mem_symbol_orders (foldl remove_expired_order c uuids) !!! s <->
  u ∈ _mem_symbol_orders c !!! s /\ u ∉ uuids.
Proof.
  revert c. induction uuids as [| x uuids IH]; intros c.
  - cbn. set_solver.
  - cbn [foldl]. rewrite IH, remove_expired_order_symbols, not_elem_of_cons. tauto.
Qed.

Lemma remove_expired_orders_closed (uuids : list string) (c : AsyncCache) :
  _mem_closed_orders (foldl remove_expired_order c uuids) =
    foldl (fun m u => delete u m) (_mem_closed_orders c) uuids.
Proof.
  revert c. induction uuids as [| x uuids IH]; intros c; [reflexivity |].
  cbn [foldl]. rewrite IH.
  destruct (remove_expired_order_frame c x) as (_ & -> & _). reflexivity.
Qed.

Lemma remove_expired_algo_orders_rest (uuids : list string) (c : AsyncCache) :
  let c' := foldl remove_expired_algo_order c uuids in
  _mem_symbol_orders c' = _mem_symbol_orders c /\
  _mem_closed_orders c' = _mem_closed_orders c /\
  _mem_spot_positions c' = _mem_spot_positions c /\
  _mem_future_positions c' = _mem_future_positions c /\
  _expire_time c' = _expire_time c.
Proof.
  revert c. induction uuids as [| x uuids IH]; intros c; [repeat split |].
  cbn [foldl]. cbv zeta in IH |- *.
  destruct (IH (remove_expired_algo_order c x)) as (-> & -> & -> & -> & ->).
  repeat split.
Qed.

Lemma cleanup_symbol_orders (now : Z) (c : AsyncCache) (s u : string) :
  u ∈ _mem_symbol_orders (_cleanup_expired_data now c) !!! s <->
  u ∈ _mem_symbol_orders c !!! s /\
  ~ (exists o, _mem_orders c !! u = Some o /\
               Order.timestamp o < now - _expire_time c * 1000).
Proof.
  unfold _cleanup_expired_data. cbv zeta.
  match goal with
  | |- context [foldl remove_expired_algo_order ?c0 ?l] =>
      destruct (remove_expired_algo_orders_rest l c0) as (-> & _)
  end.
  rewrite remove_expired_orders_symbols.
  rewrite (elem_of_expired (fun o => Order.timestamp o <? now - _expire_time c * 1000)).
  split; intros [Hin Hn]; (split; [exact Hin |]); intros (o & Ho & Ht); apply Hn;
    exists o; (split; [exact Ho |]).
  - apply Z.ltb_lt. exact Ht.
  - apply Z.ltb_lt. exact Ht.
Qed.

Lemma cleanup_closed_orders (now : Z) (c : AsyncCache) (u : string) :
  _mem_closed_orders (_cleanup_expired_data now c) !! u =
    match _mem_orders c !! u with
    | Some o => if Order.timestamp o <? now - _expire_time c * 1000
                then None else _mem_closed_orders c !! u
    | None => _mem_closed_orders c !! u
    end.
Proof.
  unfold _cleanup_expired_data. cbv zeta.
  match goal with
  | |- context [foldl remove_expired_algo_order ?c0 ?l] =>
      destruct (remove_expired_algo_orders_rest l c0) as (_ & -> & _)
  end.
  rewrite remove_expired_orders_closed, lookup_delete_all.
  match goal with
  | |- context [decide (u ∈ ?l)] => destruct (decide (u ∈ l)) as [Hin | Hnin]
  end.
  - apply (elem_of_expired (fun o => Order.timestamp o <? now - _expire_time c * 1000))
      in Hin as (o & -> & ->). reflexivity.
  - destruct (_mem_orders c !! u) as [o |] eqn:Ho; [| reflexivity].
    destruct (Order.timestamp o <? now - _expire_time c * 1000) eqn:Ht; [| reflexivity].
    destruct Hnin.
    apply (elem_of_expired (fun o => Order.timestamp o <? now - _expire_time c * 1000)).
    eauto.
Qed.

Lemma cleanup_expire_time (now : Z) (c : AsyncCache) :
  _expire_time (_cleanup_expired_data now c) = _expire_time c.
Proof.
  unfold _cleanup_expired_data. cbv zeta.
  match goal with
  | |- context [foldl remove_expired_algo_order ?c0 ?l] =>
      destruct (remove_expired_algo_orders_rest l c0) as (_ & _ & _ & _ & ->)
  end.
  match goal with
  | |- context [foldl remove_expired_order c ?l] =>
      destruct (remove_expired_orders_frame l c) as (_ & _ & _ & _ & ->)
  end.
  reflexivity.
Qed.

Lemma call_keeps_symbol_index (c : AsyncCache) (op : CacheCall) :
  (forall s u, u ∈ _mem_symbol_orders c !!! s -> is_Some (_mem_orders c !! u)) ->
  forall s u, u ∈ _mem_symbol_orders (call c op) !!! s ->
              is_Some (_mem_orders (call c op) !! u).
Proof.
  intros Inv s u. destruct op as [[o | a] | [o | a] | now]; cbn [call].
  - unfold _order_initialized, _check_status_transition.
    destruct (_mem_orders c !! Order.uuid o) as [p |] eqn:Ep;
      [destruct (negb (status_in (Order.status o) (STATUS_TRANSITIONS (Order.status p))))|];
      cbn [negb]; try exact (Inv s u);
      cbn [_mem_symbol_orders _mem_orders set_mem_symbol_open_orders set_mem_symbol_orders
           set_mem_open_orders set_mem_orders];
      rewrite set_add_elem; (intros [[_ ->] | Hin];
        [rewrite lookup_insert_eq; eauto |]);
      (destruct (decide (u = Order.uuid o)) as [-> | Hne];
        [rewrite lookup_insert_eq; eauto
        | rewrite lookup_insert_ne by congruence; exact (Inv s u Hin)]).
  - exact (Inv s u).
  - unfold _order_status_update, _check_status_transition.
    destruct (_mem_orders c !! Order.uuid o) as [p |] eqn:Ep;
      [destruct (negb (status_in (Order.status o) (STATUS_TRANSITIONS (Order.status p))))|];
      cbn [negb]; try exact (Inv s u);
      destruct (Order.is_closed o);
      cbn [_mem_symbol_orders _mem_orders set_mem_symbol_open_orders set_mem_symbol_orders
           set_mem_open_orders set_mem_orders];
      intros Hin;
      (destruct (decide (u = Order.uuid o)) as [-> | Hne];
        [rewrite lookup_insert_eq; eauto
        | rewrite lookup_insert_ne by congruence; exact (Inv s u Hin)]).
  - exact (Inv s u).
  - rewrite cleanup_symbol_orders, cleanup_orders. intros [Hin Hn].
    destruct (Inv s u Hin) as [o Ho]. rewrite Ho.
    destruct (Z.ltb_spec (Order.timestamp o) (now - _expire_time c * 1000)) as [Hlt | Hge].
    + destruct Hn. eauto.
    + eauto.
Qed.

(** X14.  Whatever the sequence of [_order_initialized],
    [_order_status_update] and [_cleanup_expired_data] calls on a new
    cache, every uuid filed in [_mem_symbol_orders] is a key of
    [_mem_orders]: the eviction clears the symbol index together with the
    order. *)
Theorem symbol_orders_indexed (ops : list CacheCall) (expire_time : Z) (r : Redis)
    (s u : string) :
  let c := run ops (new_cache expire_time r) in
  u ∈ _mem_symbol_orders c !!! s -> is_Some (_mem_orders c !! u).
Proof.
  intros c. subst c. unfold run. revert s u.
  assert (Inv0 : forall s u, u ∈ _mem_symbol_orders (new_cache expire_time r) !!! s ->
                             is_Some (_mem_orders (new_cache expire_time r) !! u)).
  { intros s u. cbn. rewrite lookup_total_empty. set_solver. }
  revert Inv0. generalize (new_cache expire_time r).
  induction ops as [| op ops IH]; intros c Inv; [exact Inv |].
  cbn [foldl]. apply IH. apply call_keeps_symbol_index. exact Inv.
Qed.

Lemma symbol_orders_indexed_witness :
  is_Some (_mem_orders (run [OrderInitialized (IsOrder order1)]
                          (new_cache 3600 empty_redis)) !! "u1"%string).
Proof.
  apply (symbol_orders_indexed [OrderInitialized (IsOrder order1)] 3600 empty_redis
           "BTCUSDT" "u1").
  apply set_add_elem. left. split; reflexivity.
Defined.

(** X15.  [_cleanup_expired_data] takes out of every set of
    [_mem_symbol_orders] exactly the uuids of the orders it evicts, drops
    their mark in [_mem_closed_orders] and keeps every other mark; a
    further clean-up at the same or an earlier time evicts nothing more. *)
Theorem cleanup_symbol_index (now : Z) (c : AsyncCache) :
  let evicted u :=
    exists o, _mem_orders c !! u = Some o /\
              Order.timestamp o < now - _expire_time c * 1000 in
  let c' := _cleanup_expired_data now c in
  (forall s u, u ∈ _mem_symbol_orders c' !!! s <->
               u ∈ _mem_symbol_orders c !!! s /\ ~ evicted u) /\
  (forall u, evicted u -> _mem_closed_orders c' !! u = None) /\
  (forall u, ~ evicted u -> _mem_closed_orders c' !! u = _mem_closed_orders c !! u) /\
  (forall now', now' <= now ->
     let c'' := _cleanup_expired_data now' c' in
     _mem_orders c'' = _mem_orders c' /\
     _mem_algo_orders c'' = _mem_algo_orders c' /\
     _mem_closed_orders c'' = _mem_closed_orders c' /\
     (forall s u, u ∈ _mem_symbol_orders c'' !!! s <-> u ∈ _mem_symbol_orders c' !!! s)).
Proof.
  intros evicted c'. split; [| split; [| split]].
  - intros s u. apply cleanup_symbol_orders.
  - intros u (o & Ho & Ht). subst c'. rewrite cleanup_closed_orders, Ho.
    apply Z.ltb_lt in Ht. rewrite Ht. reflexivity.
  - intros u Hn. subst c'. rewrite cleanup_closed_orders.
    destruct (_mem_orders c !! u) as [o |] eqn:Ho; [| reflexivity].
    destruct (Z.ltb_spec (Order.timestamp o) (now - _expire_time c * 1000)) as [Hlt | Hge];
      [| reflexivity].
    destruct Hn. exists o. auto.
  - intros now' Hle c''.
    assert (Hkeep : forall u o, _mem_orders c' !! u = Some o ->
                      (Order.timestamp o <? now' - _expire_time c' * 1000) = false).
    { intros u o. subst c'. rewrite cleanup_orders, cleanup_expire_time.
      destruct (_mem_orders c !! u) as [p |]; [| discriminate].
      destruct (Z.ltb_spec (Order.timestamp p) (now - _expire_time c * 1000)) as [Hlt | Hge];
        [discriminate |].
      intros [= <-]. apply Z.ltb_ge. lia. }
    assert (Hkeepa : forall u a, _mem_algo_orders c' !! u = Some a ->
                      (AlgoOrder.timestamp a <? now' - _expire_time c' * 1000) = false).
    { intros u a. subst c'. rewrite cleanup_algo_orders, cleanup_expire_time.
      destruct (_mem_algo_orders c !! u) as [p |]; [| discriminate].
      destruct (Z.ltb_spec (AlgoOrder.timestamp p) (now - _expire_time c * 1000))
        as [Hlt | Hge]; [discriminate |].
      intros [= <-]. apply Z.ltb_ge. lia. }
    split; [| split; [| split]].
    + apply map_eq. intros u. subst c''. rewrite cleanup_orders.
      destruct (_mem_orders c' !! u) as [o |] eqn:Ho; [| reflexivity].
      rewrite (Hkeep u o Ho). reflexivity.
    + apply map_eq. intros u. subst c''. rewrite cleanup_algo_orders.
      destruct (_mem_algo_orders c' !! u) as [a |] eqn:Ha; [| reflexivity].
      rewrite (Hkeepa u a Ha). reflexivity.
    + apply map_eq. intros u. subst c''. rewrite cleanup_closed_orders.
      destruct (_mem_orders c' !! u) as [o |] eqn:Ho; [| reflexivity].
      rewrite (Hkeep u o Ho). reflexivity.
    + intros s u. subst c''. rewrite cleanup_symbol_orders. split; [tauto |].
      intros Hin. split; [exact Hin |]. intros (o & Ho & Ht).
      pose proof (Hkeep u o Ho) as Hk. apply Z.ltb_ge in Hk. lia.
Qed.

Lemma cleanup_symbol_index_witness :
  let c := _order_initialized (IsOrder order1) (new_cache 3600 empty_redis) in
  _mem_closed_orders (_cleanup_expired_data 4000000 c) !! "u1"%string = None /\
  _mem_orders (_cleanup_expired_data 3000000 (_cleanup_expired_data 4000000 c)) =
    _mem_orders (_cleanup_expired_data 4000000 c).
Proof.
  intros c.
  destruct (cleanup_symbol_index 4000000 c) as (_ & Hclosed & _ & Hagain).
  split.
  - apply Hclosed. exists order1. split; [reflexivity | vm_compute; reflexivity].
  - destruct (Hagain 3000000) as (Ho & _); [lia | exact Ho].
Defined.

(** ** [get_order] *)

Lemma symbol_discard_redis (uuid : string) (l : list (string * gset string))
    (c : AsyncCache) :
  _r (foldl (fun c '(symbol, _) =>
               let c := log_cache (RemovingOrderFromSymbol uuid symbol) c in
               set_mem_symbol_orders (set_discard symbol uuid (_mem_symbol_orders c)) c)
            c l) = _r c.
Proof.
  revert c. induction l as [| [symbol set] l IH]; intros c; [reflexivity |].
  cbn [foldl]. rewrite IH. reflexivity.
Qed.

Lemma remove_expired_orders_redis (uuids : list string) (c : AsyncCache) :
  _r (foldl remove_expired_order c uuids) = _r c.
Proof.
  revert c. induction uuids as [| x uuids IH]; intros c; [reflexivity |].
  cbn [foldl]. rewrite IH. unfold remove_expired_order. cbv zeta.
  rewrite symbol_discard_redis. reflexivity.
Qed.

Lemma remove_expired_algo_orders_redis (uuids : list string) (c : AsyncCache) :
  _r (foldl remove_expired_algo_order c uuids) = _r c.
Proof.
  revert c. induction uuids as [| x uuids IH]; intros c; [reflexivity |].
  cbn [foldl]. rewrite IH. reflexivity.
Qed.

Lemma cleanup_redis (now : Z) (c : AsyncCache) : _r (_cleanup_expired_data now c) = _r c.
Proof.
  unfold _cleanup_expired_data. cbv zeta.
  rewrite remove_expired_algo_orders_redis, remove_expired_orders_redis. reflexivity.
Qed.

(** X16.  An order stored by [_order_initialized] or
    [_order_status_update] is what [get_order] returns for its uuid, with
    the cache unchanged, provided the uuid has the prefix that matches its
    kind: ALGO- for an [AlgoOrder], any other for an [Order].  The prefix
    alone decides the kind of the answer, and a repeated [get_order] gives
    the same answer without changing the cache again. *)
Theorem get_order_round_trip (c : AsyncCache) :
  (forall o,
     String.prefix "ALGO-" (Order.uuid o) = false ->
     (forall prev, _mem_orders c !! Order.uuid o = Some prev ->
                   Order.status o ∈ STATUS_TRANSITIONS (Order.status prev)) ->
     get_order (Order.uuid o) (_order_initialized (IsOrder o) c) =
       (Some (IsOrder o), _order_initialized (IsOrder o) c) /\
     get_order (Order.uuid o) (_order_status_update (IsOrder o) c) =
       (Some (IsOrder o), _order_status_update (IsOrder o) c)) /\
  (forall a,
     String.prefix "ALGO-" (AlgoOrder.uuid a) = true ->
     get_order (AlgoOrder.uuid a) (_order_initialized (IsAlgoOrder a) c) =
       (Some (IsAlgoOrder a), _order_initialized (IsAlgoOrder a) c) /\
     get_order (AlgoOrder.uuid a) (_order_status_update (IsAlgoOrder a) c) =
       (Some (IsAlgoOrder a), _order_status_update (IsAlgoOrder a) c)) /\
  (forall uuid,
     match fst (get_order uuid c) with
     | Some (IsOrder _) => String.prefix "ALGO-" uuid = false
     | Some (IsAlgoOrder _) => String.prefix "ALGO-" uuid = true
     | None => snd (get_order uuid c) = c
     end) /\
  (forall uuid,
     get_order uuid (snd (get_order uuid c)) =
       (fst (get_order uuid c), snd (get_order uuid c))).
Proof.
  split; [| split; [| split]].
  - intros o Hp Hok. split.
    + destruct (order_initialized_committed o c Hok) as (Hm & _).
      unfold get_order. rewrite Hp, Hm, lookup_insert_eq. reflexivity.
    + destruct (order_update_committed_fields o c Hok) as (Hm & _).
      unfold get_order. rewrite Hp, Hm, lookup_insert_eq. reflexivity.
  - intros a Hp. split; unfold get_order; rewrite Hp; cbn [_order_initialized
      _order_status_update _mem_algo_orders set_mem_algo_orders];
      rewrite lookup_insert_eq; reflexivity.
  - intros uuid. unfold get_order.
    destruct (String.prefix "ALGO-" uuid).
    + destruct (_mem_algo_orders c !! uuid); [reflexivity |].
      destruct (redis_algo_orders (_r c) !! uuid); reflexivity.
    + destruct (_mem_orders c !! uuid); [reflexivity |].
      destruct (redis_orders (_r c) !! uuid); reflexivity.
  - intros uuid. unfold get_order.
    destruct (String.prefix "ALGO-" uuid).
    + destruct (_mem_algo_orders c !! uuid) as [a |] eqn:Ea.
      * cbn [fst snd]. rewrite Ea. reflexivity.
      * destruct (redis_algo_orders (_r c) !! uuid) as [a |] eqn:Er; cbn [fst snd].
        -- cbn [_mem_algo_orders set_mem_algo_orders].
           rewrite lookup_insert_eq. reflexivity.
        -- rewrite Ea, Er. reflexivity.
    + destruct (_mem_orders c !! uuid) as [o |] eqn:Eo.
      * cbn [fst snd]. rewrite Eo. reflexivity.
      * destruct (redis_orders (_r c) !! uuid) as [o |] eqn:Er; cbn [fst snd].
        -- cbn [_mem_orders set_mem_orders].
           rewrite lookup_insert_eq. reflexivity.
        -- rewrite Eo, Er. reflexivity.
Qed.

Lemma get_order_round_trip_witness :
  get_order "u1" (_order_initialized (IsOrder order1) (new_cache 3600 empty_redis)) =
    (Some (IsOrder order1), _order_initialized (IsOrder order1) (new_cache 3600 empty_redis)).
Proof.
  destruct (get_order_round_trip (new_cache 3600 empty_redis)) as (Horder & _).
  destruct (Horder order1) as (Hinit & _).
  - reflexivity.
  - intros prev Hprev. cbn in Hprev. rewrite lookup_empty in Hprev. discriminate.
  - exact Hinit.
Defined.

(** X17.  Once [_cleanup_expired_data] has evicted an order, [get_order]
    answers with the copy that Redis holds under the uuid, if any, and
    puts that copy back into [_mem_orders]; without a copy it answers
    [None].  The evicted order itself plays no part in the answer. *)
Theorem get_order_after_eviction (now : Z) (c : AsyncCache) (uuid : string) (o : Order.t) :
  String.prefix "ALGO-" uuid = false ->
  _mem_orders c !! uuid = Some o ->
  Order.timestamp o < now - _expire_time c * 1000 ->
  let c' := _cleanup_expired_data now c in
  fst (get_order uuid c') = IsOrder <$> redis_orders (_r c) !! uuid /\
  _mem_orders (snd (get_order uuid c')) !! uuid = redis_orders (_r c) !! uuid /\
  (forall u, u <> uuid ->
             _mem_orders (snd (get_order uuid c')) !! u = _mem_orders c' !! u).
Proof.
  intros Hp Ho Ht c'.
  assert (Hgone : _mem_orders c' !! uuid = None).
  { subst c'. rewrite cleanup_orders, Ho. apply Z.ltb_lt in Ht. rewrite Ht. reflexivity. }
  unfold get_order. rewrite Hp, Hgone. subst c'. rewrite cleanup_redis.
  destruct (redis_orders (_r c) !! uuid) as [ro |]; cbn [fst snd fmap option_fmap option_map].
  - cbn [_mem_orders set_mem_orders]. rewrite lookup_insert_eq.
    split; [reflexivity |]. split; [reflexivity |].
    intros u Hne. rewrite lookup_insert_ne by congruence. reflexivity.
  - split; [reflexivity |]. split; [exact Hgone | reflexivity].
Qed.

Lemma get_order_after_eviction_witness :
  let c := _order_initialized (IsOrder order1) (new_cache 3600 empty_redis) in
  fst (get_order "u1" (_cleanup_expired_data 4000000 c)) = None.
Proof.
  intros c.
  destruct (get_order_after_eviction 4000000 c "u1" order1) as (H & _).
  - reflexivity.
  - reflexivity.
  - vm_compute. reflexivity.
  - exact H.
Defined.

(** ** The accounts of a TWAP run *)






Section TwapAccounts.
Variable get_min_order_amount : string -> BaseMarket -> M Decimal.
Variable account_type : string.





End TwapAccounts.





Lemma bind_eq {A B} (m : M A) (k : A -> M B) (e e' : EMS) (a : A) :
  m e = (Ok a, e') -> bind m k e = k a e'.
Proof. intros H. unfold bind. rewrite H. reflexivity. Qed.

Lemma twap_loop_done (account_type : string) (market : BaseMarket)
    (min_order_amount : Decimal) (envs : list Env) (l : TwapLocals) (e : EMS) :
  amount_list l = [] ->
  twap_loop account_type market min_order_amount envs l e = (Ok (Some l), e).
Proof.
  intros Hl. destruct envs; cbn [twap_loop]; rewrite Hl; reflexivity.
Qed.

(** The last slice goes out as a market order, and the loop ends with it. *)
Lemma twap_last_slice (account_type : string) (market : BaseMarket)
    (min_order_amount : Decimal) (env : Env) (envs : list Env) (amount : Decimal)
    (elapsed : Q) (algo : AlgoOrder.t) (book : BookL1) (e : EMS) :
  _market e !! AlgoOrder.symbol algo = Some market ->
  bookl1 (AlgoOrder.symbol algo) (_cache e) = Some book ->
  account_type ∈ _private_connectors e ->
  exists l' e',
    twap_loop account_type market min_order_amount (env :: envs)
      (mkLocals [amount] None elapsed algo) e = (Ok (Some l'), e') /\
    _connector_calls e' =
      _connector_calls e ++
      [create_order account_type
         (OrderSubmit.mk (AlgoOrder.symbol algo) SubmitType.CREATE (fresh_uuid env)
            (AlgoOrder.side algo) OrderType.MARKET amount None 0%Q 0%Q
            (AlgoOrder.exchange algo))].
Proof.
  intros Hmarket Hbook Hconn.
  assert (Hround :
    twap_round account_type market min_order_amount env
      (mkLocals [amount] None elapsed algo) e =
    submit_child account_type env
      (child_submit env (mkLocals [] None elapsed algo) OrderType.MARKET amount None)
      true (mkLocals [] None elapsed algo) e).
  { unfold twap_round. cbn [order_id algo_order]. unfold bind, _cal_limit_order_price.
    rewrite Hbook. unfold _price_to_precision. rewrite Hmarket.
    cbn [amount_list last removelast elapsed_time]. reflexivity. }
  cbn [twap_loop amount_list]. unfold bind at 1. rewrite Hround.
  unfold submit_child. unfold bind at 1.
  rewrite (create_order_steps _ _ account_type e Hconn).
  cbn [child_submit OrderSubmit.uuid algo_order].
  change (Order.success (Order.with_uuid (fresh_uuid env) (connector_response env)))
    with (Order.success (connector_response env)).
  destruct (Order.success (connector_response env)).
  - unfold bind at 1. unfold with_cache at 1. unfold ret at 1.
    unfold bind at 1. unfold with_cache at 1.
    rewrite twap_loop_done by reflexivity.
    eexists _, _. split; [reflexivity |]. reflexivity.
  - unfold bind, with_cache, log_ems, ret.
    eexists _, _. split; [reflexivity |]. reflexivity.
Qed.

(** X20.  On OKX a TWAP for a nonzero amount below the minimum order
    amount of the market is carried out in the first round as a single
    market order for the minimum itself, which is more than was asked for;
    no further call follows, and the run ends whether the venue accepts
    the order or not. *)
Theorem twap_below_minimum (account_type : string) (timestamp : Z) (env : Env)
    (envs : list Env) (order_submit : OrderSubmit.t) (market : BaseMarket)
    (book : BookL1) (e : EMS) :
  let symbol := OrderSubmit.symbol order_submit in
  let min_order_amount :=
    to_precision (precision_amount (precision market))
      (limits_amount_min (limits market)) ceil in
  _market e !! symbol = Some market ->
  bookl1 symbol (_cache e) = Some book ->
  account_type ∈ _private_connectors e ->
  ~ (Dval (OrderSubmit.amount order_submit) == 0)%Q ->
  (Dval (OrderSubmit.amount order_submit) < Dval min_order_amount)%Q ->
  let r := _twap_order Okx_get_min_order_amount account_type timestamp (env :: envs)
             order_submit e in
  fst r = Ok true /\
  _connector_calls (snd r) =
    _connector_calls e ++
    [create_order account_type
       (OrderSubmit.mk symbol SubmitType.CREATE (fresh_uuid env)
          (OrderSubmit.side order_submit) OrderType.MARKET min_order_amount None
          0%Q 0%Q (OrderSubmit.exchange order_submit))].
Proof.
  intros symbol min_order_amount Hmarket Hbook Hconn Hnz Hlt r. subst r.
  unfold _twap_order. fold symbol. rewrite Hmarket.
  erewrite bind_eq by reflexivity.
  erewrite bind_eq by reflexivity.
  erewrite bind_eq
    by (unfold Okx_get_min_order_amount, _amount_to_precision; cbn [_market set_cache];
        rewrite Hmarket; reflexivity).
  erewrite bind_eq
    by (cbv beta; cbn [_market set_cache];
        rewrite (calculate_below_min _ symbol _ _ _ min_order_amount Hnz Hlt);
        reflexivity).
  erewrite bind_eq by reflexivity.
  cbn [fst].
  match goal with
  | |- context [bind (twap_loop account_type market ?m (env :: envs)
                        (mkLocals [?a] None ?el ?algo)) _ ?e0] =>
      destruct (twap_last_slice account_type market m env envs a el algo book e0)
        as (l' & e' & Hloop & Hcalls); [exact Hmarket | exact Hbook | exact Hconn |]
  end.
  rewrite (bind_eq _ _ _ _ _ Hloop).
  unfold bind, with_cache, log_ems, ret. cbn [fst snd _connector_calls set_cache].
  split; [reflexivity | exact Hcalls].
Qed.

Lemma twap_below_minimum_witness :
  let r := _twap_order Okx_get_min_order_amount "UNIFIED_TESTNET" 5000
             [accepting_round] twap_small sample_ems in
  fst r = Ok true /\
  _connector_calls (snd r) =
    [create_order "UNIFIED_TESTNET"
       (OrderSubmit.mk "BTCUSDT" SubmitType.CREATE "c1" OrderSide.BUY OrderType.MARKET
          (to_precision (mkDecimal 1 (-3)) (1 # 1000) ceil) None 0%Q 0%Q
          ExchangeType.BYBIT)].
Proof.
  apply (twap_below_minimum "UNIFIED_TESTNET" 5000 accepting_round [] twap_small
           (mkMarket (mkPrecision (mkDecimal 1 (-3)) (mkDecimal 1 (-1)))
              (mkLimits (1 # 1000)))
           (mkBookL1 "BTCUSDT" 65000 65001) sample_ems).
  - reflexivity.
  - reflexivity.
  - compute_done.
  - vm_compute. discriminate.
  - vm_compute. reflexivity.
Defined.

(** ** The mark of a closed order *)

Section ClosedMark.
Variable is_spot : string -> bool.

Lemma apply_spot_keeps_mark (o : Order.t) (c : AsyncCache) (u : string) :
  default false (_mem_closed_orders c !! u) = true ->
  default false (_mem_closed_orders (_apply_spot_position is_spot o c) !! u) = true.
Proof.
  intros Hu. unfold _apply_spot_position, get_position.
  repeat (match goal with
          | |- context [if ?b then _ else _] => destruct b eqn:?
          | |- context [match ?x with Some _ => _ | None => _ end] => destruct x eqn:?
          end; cbn [_mem_closed_orders set_mem_closed_orders set_mem_spot_positions
                    set_mem_future_positions log_cache fst snd]);
    try exact Hu;
    (destruct (decide (u = Order.uuid o)) as [-> | Hne];
     [rewrite lookup_insert_eq; reflexivity
     | rewrite lookup_insert_ne by congruence; exact Hu]).
Qed.

Lemma deliver_keeps_mark (o : Order.t) (c : AsyncCache) (u : string) :
  default false (_mem_closed_orders c !! u) = true ->
  default false (_mem_closed_orders (deliver is_spot o c) !! u) = true.
Proof.
  intros Hu. unfold deliver. apply apply_spot_keeps_mark.
  rewrite (position_state_closed _ _ (order_update_position_state (IsOrder o) c)).
  exact Hu.
Qed.

Lemma deliveries_keep_mark (between : list Order.t) (c : AsyncCache) (u : string) :
  default false (_mem_closed_orders c !! u) = true ->
  default false
    (_mem_closed_orders (foldl (fun c o => deliver is_spot o c) c between) !! u) = true.
Proof.
  revert c. induction between as [| o between IH]; intros c Hu; [exact Hu |].
  cbn [foldl]. apply IH. apply deliver_keeps_mark. exact Hu.
Qed.

(** X21.  Once a FILLED or CANCELED order has been delivered, no later
    delivery for its uuid touches a position, whatever its status and
    whatever was delivered in between: [_apply_spot_position] only logs
    that the order is already closed. *)
Theorem closed_order_not_applied_again (o late : Order.t) (between : list Order.t)
    (c : AsyncCache) :
  Order.status o ∈ [OrderStatus.FILLED; OrderStatus.CANCELED] ->
  Order.uuid late = Order.uuid o ->
  let c1 := foldl (fun c o => deliver is_spot o c) (deliver is_spot o c) between in
  let c2 := _order_status_update (IsOrder late) c1 in
  _apply_spot_position is_spot late c2 = log_cache (AlreadyClosed (Order.uuid o)) c2 /\
  position_state (deliver is_spot late c1) = position_state c1.
Proof.
  intros Hst Huuid c1 c2.
  assert (Hmark : default false (_mem_closed_orders c1 !! Order.uuid o) = true).
  { subst c1. apply deliveries_keep_mark. unfold deliver.
    set (cu := _order_status_update (IsOrder o) c).
    destruct (default false (_mem_closed_orders cu !! Order.uuid o)) eqn:Hg.
    - apply apply_spot_keeps_mark. exact Hg.
    - destruct (apply_spot_result is_spot o cu Hg) as [_ ->].
      apply status_in_elem. exact Hst. }
  assert (Hmark2 : default false (_mem_closed_orders c2 !! Order.uuid late) = true).
  { subst c2.
    rewrite (position_state_closed _ _ (order_update_position_state (IsOrder late) c1)).
    rewrite Huuid. exact Hmark. }
  split.
  - rewrite (apply_spot_guarded is_spot late c2 Hmark2), Huuid. reflexivity.
  - unfold deliver. fold c2. rewrite (apply_spot_guarded is_spot late c2 Hmark2).
    subst c2. apply (order_update_position_state (IsOrder late) c1).
Qed.
End ClosedMark.

Lemma closed_order_not_applied_again_witness :
  let spot := fun _ : string => true in
  let filled :=
    Order.mk "u1" (Some "V1"%string) "BTCUSDT" ExchangeType.BYBIT OrderStatus.FILLED
      OrderSide.BUY (mkDecimal 1 (-3)) (mkDecimal 1 (-3)) Dzero 2000 true in
  let c1 := deliver spot filled
              (_order_initialized (IsOrder order1) (new_cache 3600 empty_redis)) in
  position_state (deliver spot order1 c1) = position_state c1.
Proof.
  intros spot filled c1.
  destruct (closed_order_not_applied_again spot filled order1 []
              (_order_initialized (IsOrder order1) (new_cache 3600 empty_redis)))
    as [_ H].
  - left.
  - reflexivity.
  - exact H.
Defined.
